(** * rag/rag_engine.py: the Chroma vector-store connector

    A shallow embedding of [rag/rag_engine.py] and the properties its
    specification states about it.

    The module is a thin client: every operation builds a request, sends it
    to a remote Chroma server through the [chromadb] client library and
    reshapes the answer.  The embedding therefore has three layers:

    - [Py], [Utf8], [Sha256]: the Python values, [str.encode("utf-8")] and
      [hashlib.sha256(...).hexdigest()] the module relies on;
    - [ChromaApi]: the interface of the client library, as a type class over
      the state of the remote side, and [Connector], the functions of
      [rag_engine.py] written against that interface in a state and
      exception monad;
    - [Mem]: a reference server implementing the wire contract of the
      specification (section 6), used wherever a property depends on what
      the remote side stores and answers. *)

From Stdlib Require Import ZArith QArith Sorting.Sorted.
From stdpp Require Import base option list gmap strings sorting pretty.

Local Open Scope Z_scope.

(* ===================================================================== *)
(** * Python values *)
(* ===================================================================== *)

Module Py.

(** A Python [str] is a sequence of code points. *)
Definition str := list N.

(** A program literal, character by character. *)
Definition lit (s : string) : str :=
  map Ascii.N_of_ascii (String.list_ascii_of_string s).

(** [str(n)] for an [int]. *)
Definition str_of_int (n : Z) : str := lit (pretty n).

(** Truthiness of a [str]: the empty string is false. *)
Definition str_truthy (s : str) : bool :=
  match s with [] => false | _ :: _ => true end.

(** Truthiness of an [Optional[str]]: [None] and [""] are false. *)
Definition opt_str_truthy (o : option str) : bool :=
  match o with None => false | Some s => str_truthy s end.

(** The exception classes that occur. *)
Inductive exn_class :=
| ConnectionError
| ValueError
| TypeError
| IndexError
| UnicodeEncodeError
| ChromaError.

Record exn := mkExn { exn_cls : exn_class; exn_msg : str }.

(** [str(e)] *)
Definition str_of_exn (e : exn) : str := exn_msg e.

(** The result of running a piece of Python: a value or a raised
    exception. *)
Inductive outcome (A : Type) :=
| Ret (a : A)
| Raise (e : exn).
Arguments Ret {A} a.
Arguments Raise {A} e.

Definition is_ret {A} (o : outcome A) : bool :=
  match o with Ret _ => true | Raise _ => false end.

(** Scalar metadata values, and the values that are not scalars.  A float
    is represented by the rational it denotes. *)
Inductive scalar :=
| SStr (s : str)
| SInt (n : Z)
| SFloat (q : Q)
| SBool (b : bool).

Inductive value :=
| Scalar (s : scalar)
| VNone
| VList (l : list scalar)
| VDict (l : list (str * scalar)).

Definition is_scalar (v : value) : bool :=
  match v with Scalar _ => true | _ => false end.

#[export] Instance Q_eq_dec : EqDecision Q.
Proof. solve_decision. Defined.
#[export] Instance scalar_eq_dec : EqDecision scalar.
Proof. solve_decision. Defined.
#[export] Instance value_eq_dec : EqDecision value.
Proof. solve_decision. Defined.
#[export] Instance exn_class_eq_dec : EqDecision exn_class.
Proof. solve_decision. Defined.

(** [x[0]] on an [Optional[List[...]]]: [None] is not subscriptable, the
    empty list has no index 0. *)
Definition subscript0 {A} (x : option (list A)) : outcome A :=
  match x with
  | None => Raise (mkExn TypeError (lit "'NoneType' object is not subscriptable"))
  | Some [] => Raise (mkExn IndexError (lit "list index out of range"))
  | Some (a :: _) => Ret a
  end.

(** [zip(a, b, c)]: stops at the shortest argument. *)
Fixpoint zip3 {A B C} (a : list A) (b : list B) (c : list C)
  : list (A * B * C) :=
  match a, b, c with
  | x :: a', y :: b', z :: c' => (x, y, z) :: zip3 a' b' c'
  | _, _, _ => []
  end.

End Py.
Export Py.

(* ===================================================================== *)
(** * [str.encode("utf-8")] *)
(* ===================================================================== *)

Module Utf8.

(** Bytes are integers in [0, 256). *)
Definition bytes := list Z.

Definition cont (c : N) (shift : N) : Z :=
  Z.lor 0x80 (Z.land (Z.shiftr (Z.of_N c) (Z.of_N shift)) 0x3F).

(** One code point.  Surrogates (and values no [str] can hold) cannot be
    encoded. *)
Definition encode_cp (c : N) : option bytes :=
  if (c <? 0x80)%N then Some [Z.of_N c]
  else if (c <? 0x800)%N then
    Some [Z.lor 0xC0 (Z.shiftr (Z.of_N c) 6); cont c 0]
  else if (c <? 0x10000)%N then
    if ((0xD800 <=? c) && (c <=? 0xDFFF))%N then None
    else Some [Z.lor 0xE0 (Z.shiftr (Z.of_N c) 12); cont c 6; cont c 0]
  else if (c <? 0x110000)%N then
    Some [Z.lor 0xF0 (Z.shiftr (Z.of_N c) 18); cont c 12; cont c 6; cont c 0]
  else None.

Fixpoint encode_opt (s : str) : option bytes :=
  match s with
  | [] => Some []
  | c :: s' =>
      match encode_cp c, encode_opt s' with
      | Some b, Some bs => Some (b ++ bs)
      | _, _ => None
      end
  end.

(** [s.encode("utf-8")] *)
Definition encode (s : str) : outcome bytes :=
  match encode_opt s with
  | Some b => Ret b
  | None =>
      Raise (mkExn UnicodeEncodeError
               (lit "'utf-8' codec can't encode character: surrogates not allowed"))
  end.

End Utf8.

(* ===================================================================== *)
(** * [hashlib.sha256(b).hexdigest()] (FIPS 180-4) *)
(* ===================================================================== *)

Module Sha256.

Definition w32 (x : Z) : Z := x mod 2 ^ 32.
Definition add32 (x y : Z) : Z := w32 (x + y).
Definition rotr (n x : Z) : Z :=
  Z.lor (Z.shiftr x n) (w32 (Z.shiftl x (32 - n))).
Definition not32 (x : Z) : Z := Z.lxor x 0xFFFFFFFF.

Definition ch (x y z : Z) : Z :=
  Z.lxor (Z.land x y) (Z.land (not32 x) z).
Definition maj (x y z : Z) : Z :=
  Z.lxor (Z.lxor (Z.land x y) (Z.land x z)) (Z.land y z).
Definition bsig0 (x : Z) : Z :=
  Z.lxor (Z.lxor (rotr 2 x) (rotr 13 x)) (rotr 22 x).
Definition bsig1 (x : Z) : Z :=
  Z.lxor (Z.lxor (rotr 6 x) (rotr 11 x)) (rotr 25 x).
Definition ssig0 (x : Z) : Z :=
  Z.lxor (Z.lxor (rotr 7 x) (rotr 18 x)) (Z.shiftr x 3).
Definition ssig1 (x : Z) : Z :=
  Z.lxor (Z.lxor (rotr 17 x) (rotr 19 x)) (Z.shiftr x 10).

(** The constants are the first 32 bits of the fractional parts of the cube
    roots (for [K]) and of the square roots (for [H0]) of the first primes. *)
Definition is_prime (p : Z) : bool :=
  forallb (fun d => negb (p mod d =? 0)) (seqZ 2 (p - 2)).

Definition primes : list Z := filter (fun p => is_prime p = true) (seqZ 2 310).

(** The integer cube root, one bit at a time from bit [bits - 1] down. *)
Fixpoint icbrt (bits : nat) (x r : Z) : Z :=
  match bits with
  | O => r
  | S b =>
      let c := r + 2 ^ Z.of_nat b in
      icbrt b x (if c * c * c <=? x then c else r)
  end.

Definition K : list Z :=
  Eval vm_compute in map (fun p => w32 (icbrt 40 (p * 2 ^ 96) 0)) primes.

Definition H0 : list Z :=
  Eval vm_compute in map (fun p => w32 (Z.sqrt (p * 2 ^ 64))) (take 8 primes).

(** Big-endian bytes of a word. *)
Fixpoint be_bytes (n : nat) (x : Z) : list Z :=
  match n with
  | O => []
  | S n' => Z.land (Z.shiftr x (8 * Z.of_nat n')) 0xFF :: be_bytes n' x
  end.

Definition be_word (b : list Z) : Z :=
  fold_left (fun acc x => Z.lor (Z.shiftl acc 8) x) b 0.

(** Padding: a 1 bit, zeros up to 56 mod 64, the bit length on 64 bits. *)
Definition pad (msg : list Z) : list Z :=
  let n := length msg in
  let k := ((64 - (n + 9) mod 64) mod 64)%nat in
  msg ++ [0x80] ++ replicate k 0 ++ be_bytes 8 (8 * Z.of_nat n).

Fixpoint chunks (fuel : nat) (n : nat) (l : list Z) : list (list Z) :=
  match fuel, l with
  | O, _ | _, [] => []
  | S f, _ => take n l :: chunks f n (drop n l)
  end.

Definition words (block : list Z) : list Z :=
  map be_word (chunks 16 4 block).

(** The message schedule: 16 words extended to 64. *)
Fixpoint schedule (fuel : nat) (w : list Z) : list Z :=
  match fuel with
  | O => w
  | S f =>
      let t := length w in
      let x := add32 (add32 (ssig1 (nth (t - 2) w 0)) (nth (t - 7) w 0))
                     (add32 (ssig0 (nth (t - 15) w 0)) (nth (t - 16) w 0)) in
      schedule f (w ++ [x])
  end.

Definition round (st : list Z) (kw : Z * Z) : list Z :=
  match st with
  | [a; b; c; d; e; f; g; h] =>
      let t1 := add32 (add32 (add32 h (bsig1 e)) (add32 (ch e f g) kw.1)) kw.2 in
      let t2 := add32 (bsig0 a) (maj a b c) in
      [add32 t1 t2; a; b; c; add32 d t1; e; f; g]
  | _ => st
  end.

Definition compress (h : list Z) (block : list Z) : list Z :=
  let w := schedule 48 (words block) in
  zip_with add32 h (fold_left round (zip K w) h).

Definition digest (msg : list Z) : list Z :=
  let p := pad msg in
  let hs := fold_left compress (chunks (length p) 64 p) H0 in
  mjoin (map (be_bytes 4) hs).

Definition hex_digit (n : Z) : N :=
  if n <? 10 then Z.to_N (48 + n) else Z.to_N (87 + n).

Definition hex (b : list Z) : str :=
  mjoin (map (fun x => [hex_digit (Z.shiftr x 4); hex_digit (Z.land x 0xF)]) b).

Definition hexdigest (msg : list Z) : str := hex (digest msg).

End Sha256.

(* ===================================================================== *)
(** * The [chromadb] client library, as an interface *)
(* ===================================================================== *)

Module Chroma.

Abbreviation Metadata := (gmap str value).
Abbreviation Where := (gmap str value).

(** [chromadb.HttpClient(host=, port=, ssl=, headers=)] *)
Record Client := mkClient {
  cl_host : str;
  cl_port : Z;
  cl_ssl : bool;
  cl_headers : gmap str str
}.

(** [OpenAIEmbeddingFunction(api_key=, model_name=)] *)
Record EmbeddingFunction := mkEmbedding {
  ef_api_key : option str;
  ef_model_name : str
}.

(** A collection object held by the client: the name and the server-side
    identity it was resolved to, and the embedding function it is bound
    to. *)
Record Collection := mkCollection {
  col_name : str;
  col_id : N;
  col_ef : EmbeddingFunction
}.

Inductive include_field := IDocuments | IMetadatas | IDistances.

#[export] Instance include_field_eq_dec : EqDecision include_field.
Proof. solve_decision. Defined.

(** The answer to [collection.query]: one inner list per query text, each
    field present only when it was asked for. *)
Record QueryResult := mkQueryResult {
  documents : option (list (list str));
  metadatas : option (list (list (option Metadata)));
  distances : option (list (list Q))
}.

(** The calls the library offers, over the state [S] of the remote side.
    Every call may raise, the two constructors included:
    [chromadb.HttpClient(host, port, ssl, headers)] and
    [OpenAIEmbeddingFunction(api_key, model_name)] are calls into the
    library like the others. *)
Class Api (S : Type) := {
  HttpClient : str -> Z -> bool -> gmap str str -> S -> outcome Client * S;
  OpenAIEmbeddingFunction :
    option str -> str -> S -> outcome EmbeddingFunction * S;
  heartbeat : Client -> S -> outcome Z * S;
  get_or_create_collection :
    Client -> str -> EmbeddingFunction -> S -> outcome Collection * S;
  delete_collection : Client -> str -> S -> outcome unit * S;
  collection_add :
    Collection -> list str -> list Metadata -> list str ->
    S -> outcome unit * S;
  collection_query :
    Collection -> list str -> Z -> option Where -> list include_field ->
    S -> outcome QueryResult * S
}.

(** The requests sent through a client or a collection object, for the
    record. *)
Inductive Call :=
| CHeartbeat (c : Client)
| CGetOrCreate (c : Client) (name : str) (ef : EmbeddingFunction)
| CDelete (c : Client) (name : str)
| CAdd (col : Collection) (docs : list str) (metas : list Metadata)
       (ids : list str)
| CQuery (col : Collection) (query_texts : list str) (n_results : Z)
         (where_ : option Where) (incl : list include_field).

Definition is_heartbeat (c : Call) : bool :=
  match c with CHeartbeat _ => true | _ => false end.

End Chroma.
Export Chroma.

(* ===================================================================== *)
(** * [rag/rag_engine.py] *)
(* ===================================================================== *)

Module Connector.

(** The configuration block (lines 16-22), after the environment was
    read. *)
Record Config := mkConfig {
  CHROMA_HOST : str;
  CHROMA_PORT : Z;
  CHROMA_SSL : bool;
  CHROMA_AUTH_TOKEN : option str;
  OPENAI_API_KEY : option str
}.

Definition COLLECTION_NAME : str := lit "sales_features".

(** The module-level names [client], [collection], [embedding_func]. *)
Record Globals := mkGlobals {
  client : Client;
  collection : Collection;
  embedding_func : EmbeddingFunction
}.

(** One element of the list [query_vector_db] returns. *)
Record Retrieved := mkRetrieved {
  text : str;
  metadata : Metadata;
  distance : Q
}.

Section WithApi.
Context {S : Type} `{Api S}.

(** What a run can change: the remote side, what was printed, and the
    requests that were sent. *)
Record Env := mkEnv {
  srv : S;
  stdout : list str;
  trace : list Call
}.

(** State and exceptions. *)
Definition M (A : Type) := Env -> outcome A * Env.

Definition ret {A} (a : A) : M A := fun w => (Ret a, w).
Definition raise {A} (e : exn) : M A := fun w => (Raise e, w).
Definition bind {A B} (m : M A) (k : A -> M B) : M B :=
  fun w =>
    match m w with
    | (Ret a, w') => k a w'
    | (Raise e, w') => (Raise e, w')
    end.
(** [try: m  except Exception as e: h e] *)
Definition try_except {A} (m : M A) (h : exn -> M A) : M A :=
  fun w =>
    match m w with
    | (Ret a, w') => (Ret a, w')
    | (Raise e, w') => h e w'
    end.
Definition lift {A} (o : outcome A) : M A := fun w => (o, w).

Definition print (s : str) : M unit :=
  fun w => (Ret tt, mkEnv (srv w) (stdout w ++ [s]) (trace w)).

(** A call through the client library. *)
Definition remote {A} (c : Call) (op : S -> outcome A * S) : M A :=
  fun w =>
    let (r, s') := op (srv w) in
    (r, mkEnv s' (stdout w) (trace w ++ [c])).

(** A constructor of the library: it may raise and may reach the remote
    side, and is not one of the recorded requests. *)
Definition construct {A} (op : S -> outcome A * S) : M A :=
  fun w =>
    let (r, s') := op (srv w) in
    (r, mkEnv s' (stdout w) (trace w)).

Notation "x <- m ;; k" := (bind m (fun x => k))
  (at level 100, m at next level, right associativity).
Notation "m ;;; k" := (bind m (fun _ => k))
  (at level 100, right associativity).

(** Lines 29-31: the request headers. *)
Definition headers (cfg : Config) : gmap str str :=
  match CHROMA_AUTH_TOKEN cfg with
  | Some tok =>
      if str_truthy tok
      then {[ lit "Authorization" := lit "Bearer " ++ tok ]}
      else ∅
  | None => ∅
  end.

(** The lines printed during initialisation. *)
Definition connected_msg (cfg : Config) : str :=
  lit "Connected to Chroma server at " ++ CHROMA_HOST cfg
  ++ lit ":" ++ str_of_int (CHROMA_PORT cfg).
Definition failed_connect_msg (e : exn) : str :=
  lit "Failed to connect to Chroma server: " ++ str_of_exn e.
Definition failed_init_msg (e : exn) : str :=
  lit "Failed to initialize Chroma client: " ++ str_of_exn e.
Definition initialized_msg : str :=
  lit "Chroma vector DB initialized successfully via HTTP client.".

(** Lines 26-60.  The two constructor calls (lines 35 and 50) stand outside
    the [try]: what they raise leaves the function as it is. *)
Definition get_vector_client_and_collection (cfg : Config) : M Globals :=
  client <-
    construct (HttpClient (CHROMA_HOST cfg) (CHROMA_PORT cfg)
                 (CHROMA_SSL cfg) (headers cfg)) ;;
  try_except
    (_ <- remote (CHeartbeat client) (heartbeat client) ;;
     print (connected_msg cfg))
    (fun e => print (failed_connect_msg e) ;;; raise e) ;;;
  embedding_func <-
    construct (OpenAIEmbeddingFunction (OPENAI_API_KEY cfg)
                 (lit "text-embedding-3-small")) ;;
  collection <-
    remote (CGetOrCreate client COLLECTION_NAME embedding_func)
           (get_or_create_collection client COLLECTION_NAME embedding_func) ;;
  ret (mkGlobals client collection embedding_func).

(** Lines 64-69: the module-level initialisation. *)
Definition module_init (cfg : Config) : M Globals :=
  try_except
    (g <- get_vector_client_and_collection cfg ;;
     print initialized_msg ;;;
     ret g)
    (fun e => print (failed_init_msg e) ;;; raise e).

(** [hashlib.sha256(text.encode("utf-8")).hexdigest()] *)
Definition doc_id_of (text : str) : outcome str :=
  match Utf8.encode text with
  | Ret b => Ret (Sha256.hexdigest b)
  | Raise e => Raise e
  end.

(** Lines 72-83. *)
Definition ingest_to_vector_db (g : Globals) (text : str)
  (metadata : Metadata) : M unit :=
  doc_id <- lift (doc_id_of text) ;;
  remote (CAdd (collection g) [text] [metadata] [doc_id])
         (collection_add (collection g) [text] [metadata] [doc_id]) ;;;
  print (lit "Ingested document with id: " ++ take 12 doc_id ++ lit "...").

(** Line 96: [{"customer_name": customer_filter} if customer_filter
    else None]. *)
Definition build_where (customer_filter : option str) : option Where :=
  match customer_filter with
  | Some f =>
      if str_truthy f
      then Some {[ lit "customer_name" := Scalar (SStr f) ]}
      else None
  | None => None
  end.

(** [meta or {}] *)
Definition meta_or_empty (meta : option Metadata) : Metadata :=
  match meta with
  | Some m => if decide (m = ∅) then ∅ else m
  | None => ∅
  end.

(** Lines 105-120. *)
Definition reshape (results : QueryResult) : outcome (list Retrieved) :=
  match documents results with
  | None | Some [] => Ret []
  | Some ([] :: _) => Ret []
  | Some (docs0 :: _) =>
      match subscript0 (metadatas results) with
      | Raise e => Raise e
      | Ret metas0 =>
          match subscript0 (distances results) with
          | Raise e => Raise e
          | Ret dists0 =>
              Ret (map (fun '(doc_text, meta, distance) =>
                          mkRetrieved doc_text (meta_or_empty meta) distance)
                       (zip3 docs0 metas0 dists0))
          end
      end
  end.

(** Lines 86-120. *)
Definition query_vector_db (g : Globals) (query : str)
  (customer_filter : option str) (n_results : Z) : M (list Retrieved) :=
  let where_ := build_where customer_filter in
  let incl := [IDocuments; IMetadatas; IDistances] in
  results <-
    remote (CQuery (collection g) [query] n_results where_ incl)
           (collection_query (collection g) [query] n_results where_ incl) ;;
  lift (reshape results).

(** Lines 124-132.  The assignment to the global [collection] is the
    namespace this returns; when a call raises, the namespace the caller
    holds stays as it was. *)
Definition reset_collection (g : Globals) : M Globals :=
  remote (CDelete (client g) COLLECTION_NAME)
         (delete_collection (client g) COLLECTION_NAME) ;;;
  print (lit "Collection " ++ COLLECTION_NAME ++ lit " deleted.") ;;;
  collection <-
    remote (CGetOrCreate (client g) COLLECTION_NAME (embedding_func g))
           (get_or_create_collection (client g) COLLECTION_NAME
              (embedding_func g)) ;;
  print (lit "New empty collection created.") ;;;
  ret (mkGlobals (client g) collection (embedding_func g)).

End WithApi.

Arguments Env S : clear implicits.
Arguments M S A : clear implicits.

End Connector.
Export Connector.

(* ===================================================================== *)
(** * A reference server *)
(* ===================================================================== *)

(** Modelled from the spec: the remote vector-database service, which is not
    part of the repository.  Section 6 gives its wire contract (liveness,
    collection get-or-create and delete by name, document add, document query
    answering with parallel arrays); section 4 adds that a query is answered
    with up to [n_results] matches of the equality filter in ascending
    distance, that add is an upsert on the id, and that the protocol accepts
    scalar metadata values only.  The distance of a stored text to a query
    text (embedding and metric) is a parameter of the server, and so is a
    schedule of faults, one entry per request, which lets any request fail
    the way a network or the embedding service can. *)
Module Mem.

Record Doc := mkDoc {
  doc_id : str;
  doc_text : str;
  doc_meta : option Metadata
}.

Record Coll := mkColl {
  coll_uuid : N;
  coll_docs : list Doc
}.

Record Server := mkServer {
  faults : list (option exn);
  dist : str -> str -> Q;
  colls : gmap str Coll;
  next_uuid : N
}.

Definition with_faults (s : Server) (fs : list (option exn)) : Server :=
  mkServer fs (dist s) (colls s) (next_uuid s).
Definition with_colls (s : Server) (cs : gmap str Coll) : Server :=
  mkServer (faults s) (dist s) cs (next_uuid s).

(** The fault, if any, that the schedule holds for the next request, and
    the server once that entry is consumed. *)
Definition next_fault (s : Server) : option exn :=
  match faults s with
  | Some e :: _ => Some e
  | _ => None
  end.

Definition tick (s : Server) : Server := with_faults s (tail (faults s)).

(** Serving one request: the next entry of the fault schedule decides
    whether it gets through. *)
Definition request {A} (op : Server -> outcome A * Server)
  : Server -> outcome A * Server :=
  fun s =>
    match next_fault s with
    | Some e => (Raise e, tick s)
    | None => op (tick s)
    end.

Definition not_found (name : str) : exn :=
  mkExn ChromaError (lit "Collection " ++ name ++ lit " does not exist.").

(** The collection a client-side object denotes, if it still exists. *)
Definition resolve (s : Server) (c : Collection) : option Coll :=
  match colls s !! col_name c with
  | Some k => if decide (coll_uuid k = col_id c) then Some k else None
  | None => None
  end.

Definition mem_heartbeat (_ : Client) : Server -> outcome Z * Server :=
  request (fun s => (Ret (Z.of_N (next_uuid s)), s)).

Definition mem_get_or_create (_ : Client) (name : str)
  (ef : EmbeddingFunction) : Server -> outcome Collection * Server :=
  request (fun s =>
    match colls s !! name with
    | Some k => (Ret (mkCollection name (coll_uuid k) ef), s)
    | None =>
        let u := next_uuid s in
        (Ret (mkCollection name u ef),
         mkServer (faults s) (dist s)
           (<[name := mkColl u []]> (colls s)) (N.succ u))
    end).

Definition mem_delete (_ : Client) (name : str)
  : Server -> outcome unit * Server :=
  request (fun s =>
    match colls s !! name with
    | Some _ => (Ret tt, with_colls s (delete name (colls s)))
    | None => (Raise (not_found name), s)
    end).

(** Add is an upsert on the id: a stored document with that id is
    replaced in place, a new id goes to the end.  (The specification leaves
    open whether a duplicate replaces or merges; the properties below that
    speak of the stored text and metadata do so only for an id that was not
    stored before.) *)
Fixpoint upsert (d : Doc) (l : list Doc) : list Doc :=
  match l with
  | [] => [d]
  | x :: l' =>
      if decide (doc_id x = doc_id d) then d :: l' else x :: upsert d l'
  end.

Definition scalar_metadata (m : Metadata) : bool :=
  bool_decide (map_Forall (fun _ v => is_scalar v = true) m).

Definition mem_add (c : Collection) (docs : list str)
  (metas : list Metadata) (ids : list str)
  : Server -> outcome unit * Server :=
  request (fun s =>
    match resolve s c with
    | None => (Raise (not_found (col_name c)), s)
    | Some k =>
        if negb ((length docs =? length ids)%nat
                 && (length metas =? length ids)%nat)
        then (Raise (mkExn ValueError (lit "Unequal lengths for fields")), s)
        else if negb (forallb scalar_metadata metas)
        then (Raise (mkExn ValueError
                       (lit "Expected metadata value to be a str, int, float or bool")), s)
        else
          let new :=
            map (fun '(i, t, m) => mkDoc i t (Some m)) (zip3 ids docs metas) in
          let stored := fold_left (fun l d => upsert d l) new (coll_docs k) in
          (Ret tt,
           with_colls s (<[col_name c := mkColl (coll_uuid k) stored]> (colls s)))
    end).

(** The equality filter: every field of the filter is a field of the
    document's metadata, with that value. *)
Definition where_holds (w : option Where) (d : Doc) : Prop :=
  match w with
  | None => True
  | Some f =>
      map_Forall (fun k v => default ∅ (doc_meta d) !! k = Some v) f
  end.

#[export] Instance where_holds_dec w d : Decision (where_holds w d).
Proof. destruct w; simpl; apply _. Defined.

(** Ordering of the candidates by their distance. *)
Definition nearer (a b : Doc * Q) : Prop := (a.2 <= b.2)%Q.

#[export] Instance Qle_dec : RelDecision Qle.
Proof. intros a b. unfold Qle. apply _. Defined.
#[export] Instance nearer_dec : RelDecision nearer.
Proof. intros a b. unfold nearer. apply _. Defined.

(** The matches for one query text: the documents that pass the filter,
    nearest first, cut at [n]. *)
Definition hits (dist : str -> str -> Q) (docs : list Doc)
  (w : option Where) (n : Z) (q : str) : list (Doc * Q) :=
  take (Z.to_nat n)
    (merge_sort nearer
       (map (fun d => (d, dist q (doc_text d)))
            (filter (where_holds w) docs))).

Definition asked (f : include_field) (incl : list include_field) : bool :=
  bool_decide (f ∈ incl).

(** A query.  As [chromadb] does, the server refuses a result count that is
    not positive; the specification only speaks of positive counts. *)
Definition mem_query (c : Collection) (query_texts : list str) (n : Z)
  (w : option Where) (incl : list include_field)
  : Server -> outcome QueryResult * Server :=
  request (fun s =>
    match resolve s c with
    | None => (Raise (not_found (col_name c)), s)
    | Some k =>
        if n <=? 0
        then (Raise (mkExn TypeError
                       (lit "Number of requested results cannot be negative, or zero.")), s)
        else
          let hs := map (hits (dist s) (coll_docs k) w n) query_texts in
          (Ret (mkQueryResult
                  (if asked IDocuments incl
                   then Some (map (map (fun h => doc_text h.1)) hs) else None)
                  (if asked IMetadatas incl
                   then Some (map (map (fun h => doc_meta h.1)) hs) else None)
                  (if asked IDistances incl
                   then Some (map (map snd) hs) else None)),
           s)
    end).

(** Building the client opens the connection, which is a request like the
    others; building the embedding function is local and needs the API key
    (section 6: a required credential). *)
Definition mem_http_client (host : str) (port : Z) (ssl : bool)
  (hs : gmap str str) : Server -> outcome Client * Server :=
  request (fun s => (Ret (mkClient host port ssl hs), s)).

Definition missing_api_key : exn :=
  mkExn ValueError (lit "The OPENAI_API_KEY environment variable is not set.").

Definition mem_openai_embedding (api_key : option str) (model_name : str)
  : Server -> outcome EmbeddingFunction * Server :=
  fun s =>
    match api_key with
    | Some _ => (Ret (mkEmbedding api_key model_name), s)
    | None => (Raise missing_api_key, s)
    end.

#[export] Instance api : Api Server := {
  HttpClient := mem_http_client;
  OpenAIEmbeddingFunction := mem_openai_embedding;
  heartbeat := mem_heartbeat;
  get_or_create_collection := mem_get_or_create;
  delete_collection := mem_delete;
  collection_add := mem_add;
  collection_query := mem_query
}.

(** What the server answers to the one-text query of the connector. *)
Definition mem_answer (hs : list (Doc * Q)) : QueryResult :=
  mkQueryResult (Some [map (fun h => doc_text h.1) hs])
                (Some [map (fun h => doc_meta h.1) hs])
                (Some [map snd hs]).

(** The documents stored under the collection a client-side object
    denotes. *)
Definition stored (s : Server) (c : Collection) : list Doc :=
  match resolve s c with
  | Some k => coll_docs k
  | None => []
  end.

(** The next request is served. *)
Definition served (s : Server) : Prop := next_fault s = None.

#[export] Instance served_dec s : Decision (served s).
Proof. unfold served. apply _. Defined.

End Mem.

(* ===================================================================== *)
(** * The specification's vocabulary *)
(* ===================================================================== *)

Module Spec.
Import Mem.

(** Section 4.1: a customer filter, "when present, restricts results to
    documents whose metadata field [customer_name] equals this value
    exactly".  This is the scope the specification gives a query; it is
    written from those words, not from the code. *)
Definition in_scope (customer_filter : option str) (d : Doc) : Prop :=
  match customer_filter with
  | None => True
  | Some f =>
      default ∅ (doc_meta d) !! lit "customer_name" = Some (Scalar (SStr f))
  end.

#[export] Instance in_scope_dec f d : Decision (in_scope f d).
Proof. destruct f; simpl; apply _. Defined.

(** The number of stored documents in scope. *)
Definition matching (customer_filter : option str) (docs : list Doc) : nat :=
  length (filter (in_scope customer_filter) docs).

(** The record a stored document is returned as. *)
Definition record_of (h : Doc * Q) : Retrieved :=
  mkRetrieved (doc_text h.1) (meta_or_empty (doc_meta h.1)) h.2.

End Spec.

(* ===================================================================== *)
(** * A concrete deployment, for examples *)
(* ===================================================================== *)

Module Fixture.
Import Mem.

Definition cfg0 : Config :=
  mkConfig (lit "chroma.example.com") 443 true
           (Some (lit "secret-token")) (Some (lit "sk-test")).

(** A toy distance: the difference of the lengths of the two texts. *)
Definition dist0 (q t : str) : Q :=
  inject_Z (Z.abs (Z.of_nat (length q) - Z.of_nat (length t))).

(** A server with no collection yet, serving every request. *)
Definition srv0 : Server := mkServer [] dist0 ∅ 0.
Definition env0 : Env Server := mkEnv srv0 [] [].

Definition client0 : Client :=
  mkClient (lit "chroma.example.com") 443 true
    {[ lit "Authorization" := lit "Bearer secret-token" ]}.
Definition ef0 : EmbeddingFunction :=
  mkEmbedding (Some (lit "sk-test")) (lit "text-embedding-3-small").

(** The module namespace and the environment after a successful import. *)
Definition g0 : Globals :=
  mkGlobals client0 (mkCollection COLLECTION_NAME 0 ef0) ef0.
Definition env1 : Env Server := (module_init cfg0 env0).2.

Definition acme_text : str :=
  lit "Customer Acme renewed annual contract at $50k".
Definition acme_meta : Metadata :=
  {[ lit "customer_name" := Scalar (SStr (lit "Acme")) ]}.
Definition globex_text : str := lit "Globex asked for a pilot".
Definition globex_meta : Metadata :=
  {[ lit "customer_name" := Scalar (SStr (lit "Globex")) ]}.

(** After ingesting the Acme document, and then the Globex one. *)
Definition env2 : Env Server :=
  (ingest_to_vector_db g0 acme_text acme_meta env1).2.
Definition env3 : Env Server :=
  (ingest_to_vector_db g0 globex_text globex_meta env2).2.

(** A metadata mapping with a list in it. *)
Definition tagged_meta : Metadata :=
  {[ lit "tags" := VList [SStr (lit "renewal"); SStr (lit "upsell")] ]}.

(** Servers on which the first, or the second, request fails. *)
Definition refused : exn :=
  mkExn ValueError (lit "Could not connect to a Chroma server. Are you sure it is running?").
Definition srv_down : Server := mkServer [Some refused] dist0 ∅ 0.
Definition srv_flaky : Server := mkServer [None; Some refused] dist0 ∅ 0.

(** An answer whose arrays do not line up, and whose second document has
    no metadata. *)
Definition ragged : QueryResult :=
  mkQueryResult
    (Some [[lit "a"; lit "b"; lit "c"]])
    (Some [[Some acme_meta; None]])
    (Some [[0.5; 1; 2; 3]%Q]).

(** A scripted remote side, for exercising the reshaping of answers: it
    accepts everything and answers each query with the next canned
    answer. *)
Definition script_exhausted : exn :=
  mkExn ChromaError (lit "no answer left").

#[export] Instance scripted : Api (list QueryResult) := {
  HttpClient host port ssl hs s := (Ret (mkClient host port ssl hs), s);
  OpenAIEmbeddingFunction key model s := (Ret (mkEmbedding key model), s);
  heartbeat _ s := (Ret 0, s);
  get_or_create_collection _ name ef s := (Ret (mkCollection name 0 ef), s);
  delete_collection _ _ s := (Ret tt, s);
  collection_add _ _ _ _ s := (Ret tt, s);
  collection_query _ _ _ _ _ s :=
    match s with
    | r :: s' => (Ret r, s')
    | [] => (Raise script_exhausted, [])
    end
}.

End Fixture.

(* ===================================================================== *)
(** * Reading UTF-8 back *)
(* ===================================================================== *)

(** A reader for the first code point of the bytes [Utf8.encode] writes,
    used to show that the encoding loses nothing.  The first byte tells how
    many bytes the code point takes. *)
Module Utf8Read.

Definition low6 (b : Z) : Z := b - 0x80.

Definition read_cp (bs : list Z) : option (N * list Z) :=
  match bs with
  | [] => None
  | b0 :: r0 =>
      if b0 <? 0x80 then Some (Z.to_N b0, r0)
      else if b0 <? 0xE0 then
        match r0 with
        | b1 :: r1 => Some (Z.to_N ((b0 - 0xC0) * 64 + low6 b1), r1)
        | _ => None
        end
      else if b0 <? 0xF0 then
        match r0 with
        | b1 :: b2 :: r2 =>
            Some (Z.to_N ((b0 - 0xE0) * 4096 + low6 b1 * 64 + low6 b2), r2)
        | _ => None
        end
      else
        match r0 with
        | b1 :: b2 :: b3 :: r3 =>
            Some (Z.to_N ((b0 - 0xF0) * 262144 + low6 b1 * 4096
                          + low6 b2 * 64 + low6 b3), r3)
        | _ => None
        end
  end.

End Utf8Read.

(** The characters of an id: the digits and the letters [a] to [f]. *)
Module Hex.

Definition is_lower_hex (c : N) : Prop :=
  (48 <= c <= 57 \/ 97 <= c <= 102)%N.

End Hex.

(* ===================================================================== *)
(** * An invariant of the reference server *)
(* ===================================================================== *)

Module Inv.
Import Mem.

(** Every collection carries an identity the server has already given out,
    and stores no id twice. *)
Definition wf_coll (s : Server) (k : Coll) : Prop :=
  (coll_uuid k < next_uuid s)%N /\ NoDup (map doc_id (coll_docs k)).

Definition wf (s : Server) : Prop :=
  map_Forall (fun _ k => wf_coll s k) (colls s).

#[export] Instance wf_coll_dec s k : Decision (wf_coll s k).
Proof. unfold wf_coll. apply _. Defined.
#[export] Instance wf_dec s : Decision (wf s).
Proof. unfold wf. apply _. Defined.

End Inv.

(* ===================================================================== *)
(** * Further scenarios *)
(* ===================================================================== *)

Module Scenarios.
Import Mem Fixture.

(** A text with a lone surrogate in it. *)
Definition broken_text : str := [0x61; 0xD800; 0x62]%N.

(** Answers that lack what the reshaping reads. *)
Definition no_documents : QueryResult :=
  mkQueryResult None (Some [[Some acme_meta]]) None.
Definition no_metadatas : QueryResult :=
  mkQueryResult (Some [[lit "a"]]) None (Some [[1%Q]]).

(** An answer with a document and its metadata, but no inner list of
    distances. *)
Definition no_distance_list : QueryResult :=
  mkQueryResult (Some [[lit "a"]]) (Some [[None]]) (Some []).

(** A configuration without an API key for the embeddings. *)
Definition cfg_nokey : Config :=
  mkConfig (lit "chroma.example.com") 443 true (Some (lit "secret-token")) None.

(** The environment of [env3], on a server that serves the next request and
    fails the one after it. *)
Definition env3_flaky : Env Server :=
  mkEnv (with_faults (srv env3) [None; Some refused]) (stdout env3) (trace env3).

End Scenarios.

(* ===================================================================== *)
(** * Properties *)
(* ===================================================================== *)

Import Mem Spec Fixture.

Example sha256_constants :
  length Sha256.K = 64%nat /\
  head Sha256.K = Some 0x428a2f98 /\ last Sha256.K = Some 0xc67178f2 /\
  head Sha256.H0 = Some 0x6a09e667 /\ last Sha256.H0 = Some 0x5be0cd19.
Proof. repeat split; reflexivity. Qed.

Example sha256_abc :
  Utf8.encode (lit "abc") = Ret [0x61; 0x62; 0x63] /\
  Sha256.hexdigest [0x61; 0x62; 0x63] =
    lit "ba7816bf8f01cfea414140de5dae2223b00361a396177a9cb410ff61f20015ad".
Proof. split; vm_compute; reflexivity. Qed.

Example sha256_empty :
  Sha256.hexdigest [] =
    lit "e3b0c44298fc1c149afbf4c8996fb92427ae41e4649b934ca495991b7852b855".
Proof. vm_compute; reflexivity. Qed.

(** A message longer than one block (56 bytes: the padding spills over). *)
Example sha256_two_blocks :
  Utf8.encode (lit "abcdbcdecdefdefgefghfghighijhijkijkljklmklmnlmnomnopnopq")
    = Ret (map Z.of_N (lit "abcdbcdecdefdefgefghfghighijhijkijkljklmklmnlmnomnopnopq")) /\
  Sha256.hexdigest
    (map Z.of_N (lit "abcdbcdecdefdefgefghfghighijhijkijkljklmklmnlmnomnopnopq")) =
    lit "248d6a61d20638b8e5c026930c3e6039a33ce45964ff2167f6ecedd419db06c1".
Proof. split; vm_compute; reflexivity. Qed.

(** U+00E9 takes two bytes, U+20AC three, U+1F600 four; a lone surrogate
    raises. *)
Example utf8_multibyte :
  Utf8.encode [0xE9; 0x20AC; 0x1F600]%N =
    Ret [0xC3; 0xA9; 0xE2; 0x82; 0xAC; 0xF0; 0x9F; 0x98; 0x80] /\
  is_ret (Utf8.encode [0x61; 0xD800]%N) = false.
Proof. split; vm_compute; reflexivity. Qed.

(** ** The fixture is what running the module gives *)

Example import_succeeds :
  module_init cfg0 env0 = (Ret g0, env1) /\
  trace env1 =
    [CHeartbeat client0; CGetOrCreate client0 COLLECTION_NAME ef0] /\
  stdout env1 =
    [lit "Connected to Chroma server at chroma.example.com:443";
     lit "Chroma vector DB initialized successfully via HTTP client."].
Proof. repeat split; vm_compute; reflexivity. Qed.

(** ** Lists *)

Lemma zip3_length {A B C} (a : list A) (b : list B) (c : list C) :
  length (zip3 a b c) = Nat.min (Nat.min (length a) (length b)) (length c).
Proof.
  revert b c. induction a as [|x a IH]; intros [|y b] [|z c]; simpl; try lia.
  rewrite IH. lia.
Qed.

Lemma zip3_lookup {A B C} (a : list A) (b : list B) (c : list C) i x y z :
  zip3 a b c !! i = Some (x, y, z) <->
  a !! i = Some x /\ b !! i = Some y /\ c !! i = Some z.
Proof.
  revert b c i.
  induction a as [|x' a IH]; intros [|y' b] [|z' c] [|i]; simpl;
    try (split; [discriminate | intros (? & ? & ?); discriminate]).
  - split.
    + intros [= -> -> ->]. auto.
    + intros ([= ->] & [= ->] & [= ->]). reflexivity.
  - apply IH.
Qed.

Lemma zip3_parallel {A B C D} (f : D -> A) (g : D -> B) (h : D -> C) l :
  zip3 (map f l) (map g l) (map h l) = map (fun d => (f d, g d, h d)) l.
Proof. induction l as [|d l IH]; simpl; [reflexivity | by rewrite IH]. Qed.

Lemma Sorted_take {A} (R : relation A) n (l : list A) :
  Sorted R l -> Sorted R (take n l).
Proof.
  intros Hs. revert n. induction Hs as [|x l Hs IH Hhd]; intros [|n]; simpl;
    try constructor.
  - apply IH.
  - destruct Hhd as [|y l' Hxy]; destruct n; simpl; constructor; assumption.
Qed.

(** ** Running the connector *)

Section Generic.
Context {S : Type} `{Api S}.

Lemma remote_run {A} (c : Call) (op : S -> outcome A * S) (w : Env S) :
  remote c op w = ((op (srv w)).1, mkEnv (op (srv w)).2 (stdout w) (trace w ++ [c])).
Proof. unfold remote. destruct (op (srv w)); reflexivity. Qed.

(** [query_vector_db] is one request followed by the reshaping of its
    answer. *)
Lemma query_run (g : Globals) q f n (w : Env S) :
  let rq := collection_query (collection g) [q] n (build_where f)
              [IDocuments; IMetadatas; IDistances] (srv w) in
  query_vector_db g q f n w =
    (match rq.1 with Ret r => reshape r | Raise e => Raise e end,
     mkEnv rq.2 (stdout w)
       (trace w ++ [CQuery (collection g) [q] n (build_where f)
                      [IDocuments; IMetadatas; IDistances]])).
Proof.
  simpl. unfold query_vector_db, bind, lift. rewrite remote_run.
  destruct (collection_query _ _ _ _ _ _) as [[r|e] s']; reflexivity.
Qed.

(** [ingest_to_vector_db] on a text that encodes. *)
Lemma ingest_run (g : Globals) t md id (w : Env S) :
  doc_id_of t = Ret id ->
  let rq := collection_add (collection g) [t] [md] [id] (srv w) in
  ingest_to_vector_db g t md w =
    (match rq.1 with Ret _ => Ret tt | Raise e => Raise e end,
     mkEnv rq.2
       (match rq.1 with
        | Ret _ =>
            stdout w ++ [lit "Ingested document with id: " ++ take 12 id ++ lit "..."]
        | Raise _ => stdout w
        end)
       (trace w ++ [CAdd (collection g) [t] [md] [id]])).
Proof.
  intros Hid. simpl. unfold ingest_to_vector_db, bind, lift. rewrite Hid.
  rewrite remote_run.
  destruct (collection_add _ _ _ _ _) as [[u|e] s']; reflexivity.
Qed.

Lemma reshape_arrays (r : QueryResult) d0 ds m0 ms x0 xs :
  documents r = Some (d0 :: ds) ->
  metadatas r = Some (m0 :: ms) ->
  distances r = Some (x0 :: xs) ->
  reshape r =
    Ret (map (fun '(doc_text, meta, distance) =>
                mkRetrieved doc_text (meta_or_empty meta) distance)
             (zip3 d0 m0 x0)).
Proof.
  intros Hd Hm Hx. unfold reshape. rewrite Hd, Hm, Hx. simpl.
  destruct d0; reflexivity.
Qed.

End Generic.

(** ** The empty filter and ragged answers *)

(** C9.  Calling [query_vector_db] with [customer_filter = ""] is the same
    run as calling it with [customer_filter = None]: the same request goes
    out, with no [where] clause, the same answer comes back and the same
    state is left, whatever the remote side is.  So the result is not
    restricted to documents whose [customer_name] is the empty string. *)
Theorem empty_filter_is_no_filter {S : Type} `{Api S}
  (g : Globals) (q : str) (n : Z) (w : Env S) :
  query_vector_db g q (Some []) n w = query_vector_db g q None n w /\
  trace (query_vector_db g q (Some []) n w).2 =
    trace w ++ [CQuery (collection g) [q] n None
                  [IDocuments; IMetadatas; IDistances]].
Proof.
  split; [reflexivity |].
  rewrite query_run. reflexivity.
Qed.

(** C10, as amended.  Whatever the remote side is, when its answer carries
    the three arrays [documents[0]], [metadatas[0]] and [distances[0]],
    [query_vector_db] returns a list (it does not raise), whose length is
    the minimum of the three lengths; the record at index [i] is made of the
    entries at index [i] of the three arrays, and a [None] metadata entry
    becomes the empty mapping.  (An answer with a document that lacks one of
    the other two inner arrays makes it raise: see
    [ragged_answer_counterexample].) *)
Theorem ragged_answer_truncated {S : Type} `{Api S}
  (g : Globals) (q : str) (f : option str) (n : Z) (w : Env S)
  (r : QueryResult) (s' : S) d0 ds m0 ms x0 xs :
  collection_query (collection g) [q] n (build_where f)
    [IDocuments; IMetadatas; IDistances] (srv w) = (Ret r, s') ->
  documents r = Some (d0 :: ds) ->
  metadatas r = Some (m0 :: ms) ->
  distances r = Some (x0 :: xs) ->
  exists l,
    (query_vector_db g q f n w).1 = Ret l /\
    length l = Nat.min (Nat.min (length d0) (length m0)) (length x0) /\
    (forall i R, l !! i = Some R ->
       exists t m x,
         d0 !! i = Some t /\ m0 !! i = Some m /\ x0 !! i = Some x /\
         R = mkRetrieved t (meta_or_empty m) x) /\
    (forall i R, l !! i = Some R -> m0 !! i = Some None -> metadata R = ∅).
Proof.
  intros Hq Hd Hm Hx.
  rewrite query_run. simpl. rewrite Hq. simpl.
  rewrite (reshape_arrays r d0 ds m0 ms x0 xs Hd Hm Hx).
  eexists. split; [reflexivity |].
  assert (Hlk : forall i R,
    map (fun '(doc_text, meta, distance) =>
           mkRetrieved doc_text (meta_or_empty meta) distance)
        (zip3 d0 m0 x0) !! i = Some R ->
    exists t m x,
      d0 !! i = Some t /\ m0 !! i = Some m /\ x0 !! i = Some x /\
      R = mkRetrieved t (meta_or_empty m) x).
  { intros i R Hi.
    change (map ?f ?l) with (f <$> l) in Hi.
    rewrite list_lookup_fmap in Hi.
    destruct (zip3 d0 m0 x0 !! i) as [[[t m] x]|] eqn:Hz; [|discriminate].
    apply zip3_lookup in Hz as (Ht & Hm' & Hx').
    injection Hi as <-. exists t, m, x. auto. }
  split; [|split].
  - rewrite length_map. apply zip3_length.
  - exact Hlk.
  - intros i R Hi Hnone.
    destruct (Hlk i R Hi) as (t & m & x & _ & Hm' & _ & ->).
    rewrite Hnone in Hm'. injection Hm' as <-. reflexivity.
Qed.

Lemma ragged_answer_truncated_witness :
  exists l,
    (query_vector_db g0 (lit "renewal") None 5 (mkEnv [ragged] [] [])).1 = Ret l /\
    length l = 2%nat /\
    (forall i R, l !! i = Some R ->
       exists t m x,
         [lit "a"; lit "b"; lit "c"] !! i = Some t /\
         [Some acme_meta; None] !! i = Some m /\
         [0.5; 1; 2; 3]%Q !! i = Some x /\
         R = mkRetrieved t (meta_or_empty m) x) /\
    (forall i R, l !! i = Some R ->
       [Some acme_meta; None] !! i = Some None -> metadata R = ∅).
Proof.
  apply (ragged_answer_truncated g0 (lit "renewal") None 5
           (mkEnv [ragged] [] []) ragged []
           [lit "a"; lit "b"; lit "c"] [] [Some acme_meta; None] []
           [0.5; 1; 2; 3]%Q []);
    reflexivity.
Defined.

(** What the reshaping does to the ragged answer of the fixture: two records
    out of arrays of lengths 3, 2 and 4, the second with an empty mapping. *)
Example reshape_ragged :
  reshape ragged =
    Ret [mkRetrieved (lit "a") acme_meta 0.5%Q; mkRetrieved (lit "b") ∅ 1%Q].
Proof. vm_compute. reflexivity. Qed.

(** Without the [metadatas] array the function raises as soon as there is a
    document to pair it with. *)
Example reshape_missing_array :
  is_ret (reshape (mkQueryResult (Some [[lit "a"]]) None (Some [[1%Q]]))) = false /\
  reshape (mkQueryResult (Some [[]]) None None) = Ret [] /\
  reshape (mkQueryResult None None None) = Ret [].
Proof. repeat split; reflexivity. Qed.

(** C10 as stated fails for an answer that lacks one of the three inner
    arrays: with one document, its metadata entry and an empty [distances]
    list, the three arrays [documents[0]], [metadatas[0]], [distances[0]]
    are not all there, and [query_vector_db] raises an [IndexError] instead
    of returning a list. *)
Lemma ragged_answer_counterexample :
  documents Scenarios.no_distance_list = Some [[lit "a"]] /\
  metadatas Scenarios.no_distance_list = Some [[None]] /\
  distances Scenarios.no_distance_list = Some [] /\
  exists e,
    (query_vector_db g0 (lit "renewal") None 5
       (mkEnv [Scenarios.no_distance_list] [] [])).1 = Raise e /\
    exn_cls e = IndexError.
Proof.
  split; [reflexivity |]. split; [reflexivity |]. split; [reflexivity |].
  eexists. split; vm_compute; reflexivity.
Qed.

(** ** The reference server *)

#[local] Instance nearer_total : Total nearer.
Proof. intros a b. unfold nearer, Qle. lia. Qed.

Lemma request_served {A} (op : Server -> outcome A * Server) s :
  served s -> request op s = op (tick s).
Proof. unfold served, request. intros ->. reflexivity. Qed.

Lemma request_ret {A} (op : Server -> outcome A * Server) s a s' :
  request op s = (Ret a, s') -> served s /\ op (tick s) = (Ret a, s').
Proof.
  unfold served, request. destruct (next_fault s); [discriminate | auto].
Qed.

(** The candidates: who is in the answer, how many, in which order. *)
Lemma hits_length dist docs w n q :
  length (hits dist docs w n q) =
    Nat.min (Z.to_nat n) (length (filter (where_holds w) docs)).
Proof.
  unfold hits. rewrite length_take.
  rewrite (Permutation_length (merge_sort_Permutation _ _)).
  by rewrite length_map.
Qed.

Lemma hits_sorted dist docs w n q :
  Sorted Qle (map snd (hits dist docs w n q)).
Proof.
  unfold hits.
  change (map snd ?l) with (snd <$> l).
  apply (Sorted_fmap (B := Q) snd nearer Qle); [auto |].
  apply Sorted_take, Sorted_merge_sort, _.
Qed.

Lemma hits_elem dist docs w n q h :
  h ∈ hits dist docs w n q ->
  h.1 ∈ docs /\ where_holds w h.1 /\ h.2 = dist q (doc_text h.1).
Proof.
  unfold hits. intros Hin.
  apply subseteq_take in Hin.
  rewrite merge_sort_Permutation in Hin.
  change (map ?f ?l) with (f <$> l) in Hin.
  apply list_elem_of_fmap in Hin as (d & -> & Hd).
  apply list_elem_of_filter in Hd as [Hw Hd]. auto.
Qed.

Lemma hits_none dist docs w n q :
  (forall d, d ∈ docs -> ~ where_holds w d) -> hits dist docs w n q = [].
Proof.
  intros Hnone. unfold hits.
  replace (filter (where_holds w) docs) with (@nil Doc); [by destruct (Z.to_nat n) |].
  symmetry. induction docs as [|d docs IH]; [reflexivity |].
  rewrite filter_cons_False by (apply Hnone; left).
  apply IH. intros d' Hd'. apply Hnone. by right.
Qed.

Lemma mem_query_served c q n w s k :
  served s -> resolve s c = Some k -> 0 < n ->
  mem_query c [q] n w [IDocuments; IMetadatas; IDistances] s =
    (Ret (mem_answer (hits (dist s) (coll_docs k) w n q)), tick s).
Proof.
  intros Hs Hk Hn. unfold mem_query. rewrite request_served by done.
  change (resolve (tick s) c) with (resolve s c). rewrite Hk.
  destruct (Z.leb_spec n 0); [lia | reflexivity].
Qed.

Lemma mem_query_ret c q n w s r s' :
  mem_query c [q] n w [IDocuments; IMetadatas; IDistances] s = (Ret r, s') ->
  exists k, served s /\ resolve s c = Some k /\ 0 < n.
Proof.
  unfold mem_query. intros Hq. apply request_ret in Hq as [Hs Hq].
  change (resolve (tick s) c) with (resolve s c) in Hq.
  destruct (resolve s c) as [k|]; [|discriminate].
  destruct (Z.leb_spec n 0); [discriminate |]. eauto.
Qed.

Lemma reshape_mem_answer hs : reshape (mem_answer hs) = Ret (map record_of hs).
Proof.
  destruct hs as [|h hs]; [reflexivity |].
  erewrite reshape_arrays by reflexivity.
  rewrite zip3_parallel, map_map. reflexivity.
Qed.

(** The whole of [query_vector_db] against the reference server. *)
Lemma query_mem_served (g : Globals) q f n (w : Env Server) k :
  served (srv w) -> resolve (srv w) (collection g) = Some k -> 0 < n ->
  query_vector_db g q f n w =
    (Ret (map record_of
            (hits (dist (srv w)) (coll_docs k) (build_where f) n q)),
     mkEnv (tick (srv w)) (stdout w)
       (trace w ++ [CQuery (collection g) [q] n (build_where f)
                      [IDocuments; IMetadatas; IDistances]])).
Proof.
  intros Hs Hk Hn. rewrite query_run. simpl.
  rewrite (mem_query_served _ _ _ _ _ k) by done. simpl.
  by rewrite reshape_mem_answer.
Qed.

Lemma query_mem_ret (g : Globals) q f n (w w' : Env Server) l :
  query_vector_db g q f n w = (Ret l, w') ->
  exists k,
    served (srv w) /\ resolve (srv w) (collection g) = Some k /\ 0 < n /\
    l = map record_of (hits (dist (srv w)) (coll_docs k) (build_where f) n q).
Proof.
  intros Hq. rewrite query_run in Hq. cbv zeta in Hq.
  destruct (collection_query (collection g) [q] n (build_where f)
              [IDocuments; IMetadatas; IDistances] (srv w))
    as [[r|e] s'] eqn:Hr; simpl in Hq; [|discriminate].
  change (mem_query (collection g) [q] n (build_where f)
            [IDocuments; IMetadatas; IDistances] (srv w) = (Ret r, s')) in Hr.
  destruct (mem_query_ret _ _ _ _ _ _ _ Hr) as (k & Hs & Hk & Hn).
  exists k. repeat split; try done.
  rewrite (mem_query_served _ _ _ _ _ k Hs Hk Hn) in Hr.
  injection Hr as <- <-. rewrite reshape_mem_answer in Hq. congruence.
Qed.

Lemma Sorted_adjacent {A} (R : relation A) (l : list A) i x y :
  Sorted R l -> l !! i = Some x -> l !! Datatypes.S i = Some y -> R x y.
Proof.
  intros Hs. revert i. induction Hs as [|a l Hs IH Hhd]; intros i; [done |].
  destruct i as [|i]; simpl.
  - intros [= ->] Hy. destruct Hhd as [|b l' Hab]; [done |].
    simpl in Hy. by injection Hy as <-.
  - apply IH.
Qed.

Lemma map_distance_record_of hs : map distance (map record_of hs) = map snd hs.
Proof. rewrite map_map. reflexivity. Qed.

(** The filter the code sends agrees with the scope of the specification,
    except for the empty string. *)
Lemma where_in_scope f d :
  f <> Some [] -> where_holds (build_where f) d <-> in_scope f d.
Proof.
  intros Hf. destruct f as [[|c f]|]; simpl; [done | | done].
  apply (map_Forall_singleton
           (fun k v => default ∅ (doc_meta d) !! k = Some v)).
Qed.

Lemma filter_no_where (docs : list Doc) :
  filter (where_holds None) docs = docs.
Proof.
  induction docs as [|d docs IH]; [done |].
  rewrite filter_cons_True by exact I. by rewrite IH.
Qed.

Lemma meta_or_empty_lookup (m : option Metadata) (k : str) :
  meta_or_empty m !! k = default ∅ m !! k.
Proof.
  destruct m as [m|]; simpl; [|done].
  destruct (decide (m = ∅)) as [->|]; done.
Qed.

(** ** Ordering, bound and filter *)

(** The distances of the records are a prefix of the distances array. *)
Lemma distances_of_records (d : list str) (m : list (option Metadata))
  (x : list Q) :
  map distance
    (map (fun '(doc_text, meta, distance) =>
            mkRetrieved doc_text (meta_or_empty meta) distance)
         (zip3 d m x)) =
  take (length (zip3 d m x)) x.
Proof.
  revert m x. induction d as [|t d IH]; intros [|me m] [|di x]; simpl; try done.
  by rewrite IH.
Qed.

Lemma reshape_keeps_order (r : QueryResult) (l : list Retrieved) :
  (forall ds rest, distances r = Some (ds :: rest) -> Sorted Qle ds) ->
  reshape r = Ret l -> Sorted Qle (map distance l).
Proof.
  intros Hsorted. unfold reshape.
  destruct (documents r) as [[|[|t d0] ds]|]; try (intros [= <-]; constructor).
  destruct (subscript0 (metadatas r)) as [m0|e]; [|discriminate].
  unfold subscript0.
  destruct (distances r) as [[|x0 xs]|]; try discriminate.
  intros Hl.
  assert (l = map (fun '(doc_text, meta, distance) =>
                     mkRetrieved doc_text (meta_or_empty meta) distance)
                  (zip3 (t :: d0) m0 x0)) as -> by congruence.
  rewrite distances_of_records. apply Sorted_take. eauto.
Qed.

(** C4.  [query_vector_db] keeps the order of the answer: whatever the
    remote side is, if the distances it answered with are in non-decreasing
    order, so are the distances of the list returned.  Against the reference
    server, which answers nearest first, whenever [query_vector_db] returns,
    the list it returns is in non-decreasing distance: each record is at
    most as far as the one after it. *)
Theorem results_sorted_by_distance :
  (forall (S : Type) (api : Api S) (g : Globals) (q : str) (f : option str)
          (n : Z) (w : Env S) (r : QueryResult) (s' : S) (l : list Retrieved),
     collection_query (collection g) [q] n (build_where f)
       [IDocuments; IMetadatas; IDistances] (srv w) = (Ret r, s') ->
     (forall ds rest, distances r = Some (ds :: rest) -> Sorted Qle ds) ->
     (query_vector_db g q f n w).1 = Ret l ->
     Sorted Qle (map distance l)) /\
  (forall (g : Globals) (q : str) (f : option str) (n : Z)
          (w w' : Env Server) (l : list Retrieved),
     query_vector_db g q f n w = (Ret l, w') ->
     Sorted Qle (map distance l) /\
     (forall i R R', l !! i = Some R -> l !! Datatypes.S i = Some R' ->
        (distance R <= distance R')%Q)).
Proof.
  split.
  - intros S api g q f n w r s' l Hq Hsorted Hl.
    rewrite query_run in Hl. cbv zeta in Hl. rewrite Hq in Hl.
    by apply (reshape_keeps_order r).
  - intros g q f n w w' l Hq.
    apply query_mem_ret in Hq as (k & _ & _ & _ & ->).
    assert (Hs : Sorted Qle (map distance (map record_of
              (hits (dist (srv w)) (coll_docs k) (build_where f) n q)))).
    { rewrite map_distance_record_of. apply hits_sorted. }
    split; [exact Hs |].
    intros i R R' Hi Hi'.
    apply (Sorted_adjacent Qle _ i (distance R) (distance R') Hs).
    + change (map ?f ?l) with (f <$> l). by rewrite list_lookup_fmap, Hi.
    + change (map ?f ?l) with (f <$> l). by rewrite list_lookup_fmap, Hi'.
Qed.

Lemma results_sorted_by_distance_witness :
  (exists l,
     (query_vector_db g0 (lit "renewal") None 5 (mkEnv [ragged] [] [])).1
       = Ret l /\
     Sorted Qle (map distance l)) /\
  (exists l w',
     query_vector_db g0 (lit "renewal value") None 5 env3 = (Ret l, w') /\
     length l = 2%nat /\
     Sorted Qle (map distance l) /\
     (forall i R R', l !! i = Some R -> l !! Datatypes.S i = Some R' ->
        (distance R <= distance R')%Q)).
Proof.
  split.
  - eexists. split; [vm_compute; reflexivity |].
    eapply (proj1 results_sorted_by_distance (list QueryResult) scripted g0
              (lit "renewal") None 5 (mkEnv [ragged] [] []) ragged []).
    + reflexivity.
    + intros ds rest [= <- <-]. compute_done.
    + vm_compute; reflexivity.
  - eexists _, _. split; [vm_compute; reflexivity |].
    split; [reflexivity |].
    eapply (proj2 results_sorted_by_distance g0 (lit "renewal value") None 5 env3).
    vm_compute; reflexivity.
Defined.

(** C2, as amended.  For every query text, result count and NON-EMPTY
    customer filter [f], every record that [query_vector_db] returns against
    the reference server has [metadata["customer_name"] == f], and is a
    stored document whose metadata carries exactly that value; a document
    without the field, or with another value, is not returned.  (The empty
    string is not a filter: see [filter_empty_string_counterexample] and
    [empty_filter_is_no_filter].) *)
Theorem filter_restricts_results (g : Globals) (q f : str) (n : Z)
  (w w' : Env Server) (l : list Retrieved) :
  f <> [] ->
  query_vector_db g q (Some f) n w = (Ret l, w') ->
  forall R, R ∈ l ->
    metadata R !! lit "customer_name" = Some (Scalar (SStr f)) /\
    exists d, d ∈ stored (srv w) (collection g) /\
              text R = doc_text d /\
              metadata R = meta_or_empty (doc_meta d) /\
              in_scope (Some f) d.
Proof.
  intros Hf Hq R HR.
  apply query_mem_ret in Hq as (k & _ & Hk & _ & ->).
  change (map ?f ?l) with (f <$> l) in HR.
  apply list_elem_of_fmap in HR as (h & -> & Hh).
  apply hits_elem in Hh as (Hd & Hw & _).
  apply where_in_scope in Hw; [|congruence].
  split.
  - simpl. rewrite meta_or_empty_lookup. exact Hw.
  - exists h.1. unfold stored. rewrite Hk. auto.
Qed.

Lemma filter_restricts_results_witness :
  exists l w',
    query_vector_db g0 (lit "renewal value") (Some (lit "Acme")) 5 env3
      = (Ret l, w') /\
    length l = 1%nat /\
    forall R, R ∈ l ->
      metadata R !! lit "customer_name" = Some (Scalar (SStr (lit "Acme"))) /\
      exists d, d ∈ stored (srv env3) (collection g0) /\
                text R = doc_text d /\
                metadata R = meta_or_empty (doc_meta d) /\
                in_scope (Some (lit "Acme")) d.
Proof.
  eexists _, _. split; [vm_compute; reflexivity |].
  split; [reflexivity |].
  eapply (filter_restricts_results g0 (lit "renewal value") (lit "Acme") 5 env3).
  - discriminate.
  - vm_compute; reflexivity.
Defined.

(** C2 as stated fails for the filter [""]: with the Acme document stored,
    the query with [customer_filter = ""] returns that document, whose
    [customer_name] is ["Acme"] and not [""]. *)
Lemma filter_empty_string_counterexample :
  exists R w',
    query_vector_db g0 (lit "renewal value") (Some (lit "")) 5 env2
      = (Ret [R], w') /\
    text R = acme_text /\
    metadata R !! lit "customer_name" = Some (Scalar (SStr (lit "Acme"))) /\
    metadata R !! lit "customer_name" <> Some (Scalar (SStr (lit ""))).
Proof.
  eexists _, _. split; [vm_compute; reflexivity |].
  split; [reflexivity |]. split; [vm_compute; reflexivity |].
  vm_compute. discriminate.
Qed.

(** C3, as amended.  Whenever [query_vector_db] returns against the
    reference server, the list has at most [n_results] records; when the
    customer filter is absent or a non-empty string and fewer than
    [n_results] stored documents are in its scope, the list has exactly as
    many records as there are such documents; when the filter is the empty
    string, every stored document counts. *)
Theorem result_count_bounded (g : Globals) (q : str) (f : option str)
  (n : Z) (w w' : Env Server) (l : list Retrieved) :
  query_vector_db g q f n w = (Ret l, w') ->
  let docs := stored (srv w) (collection g) in
  Z.of_nat (length l) <= n /\
  (f <> Some [] -> Z.of_nat (matching f docs) < n ->
   length l = matching f docs) /\
  (f = Some [] -> Z.of_nat (length docs) < n -> length l = length docs).
Proof.
  intros Hq docs. subst docs.
  apply query_mem_ret in Hq as (k & _ & Hk & Hn & ->).
  unfold stored. rewrite Hk.
  rewrite length_map, hits_length.
  split; [lia |]. split.
  - intros Hf Hlt. unfold matching in *.
    rewrite (list_filter_iff _ (in_scope f)) by (intros d; by apply where_in_scope).
    lia.
  - intros -> Hlt. simpl.
    rewrite filter_no_where. lia.
Qed.

Lemma result_count_bounded_witness :
  exists l w',
    query_vector_db g0 (lit "renewal value") (Some (lit "Globex")) 5 env3
      = (Ret l, w') /\
    matching (Some (lit "Globex")) (stored (srv env3) (collection g0)) = 1%nat /\
    Z.of_nat (length l) <= 5 /\
    (Some (lit "Globex") <> Some [] ->
     Z.of_nat (matching (Some (lit "Globex"))
                 (stored (srv env3) (collection g0))) < 5 ->
     length l = matching (Some (lit "Globex"))
                  (stored (srv env3) (collection g0))) /\
    (Some (lit "Globex") = Some [] ->
     Z.of_nat (length (stored (srv env3) (collection g0))) < 5 ->
     length l = length (stored (srv env3) (collection g0))).
Proof.
  eexists _, _. split; [vm_compute; reflexivity |].
  split; [vm_compute; reflexivity |].
  eapply (result_count_bounded g0 (lit "renewal value")
            (Some (lit "Globex")) 5 env3).
  vm_compute; reflexivity.
Defined.

(** The bound is reached: two documents are stored, one is asked for. *)
Example result_count_cut :
  exists l w',
    query_vector_db g0 (lit "renewal value") None 1 env3 = (Ret l, w') /\
    length (stored (srv env3) (collection g0)) = 2%nat /\ length l = 1%nat.
Proof.
  eexists _, _. split; [vm_compute; reflexivity |].
  split; vm_compute; reflexivity.
Qed.

(** C3 as stated fails for the filter [""]: one document is stored, none has
    [customer_name == ""], so no stored document is in the scope of the
    filter, and 0 < 5; yet the list returned has one record. *)
Lemma result_count_counterexample :
  exists l w',
    query_vector_db g0 (lit "renewal value") (Some (lit "")) 5 env2
      = (Ret l, w') /\
    matching (Some (lit "")) (stored (srv env2) (collection g0)) = 0%nat /\
    length l = 1%nat.
Proof.
  eexists _, _. split; [vm_compute; reflexivity |].
  split; vm_compute; reflexivity.
Qed.

(** ** Inverting a run *)

Section Inversion.
Context {S : Type} `{Api S}.

Lemma bind_ret_inv {A B} (m : M S A) (k : A -> M S B) w b w' :
  bind m k w = (Ret b, w') ->
  exists a w1, m w = (Ret a, w1) /\ k a w1 = (Ret b, w').
Proof.
  unfold bind. destruct (m w) as [[a|e] w1]; [eauto | discriminate].
Qed.

Lemma remote_ret_inv {A} (c : Call) (op : S -> outcome A * S) w a w1 :
  remote c op w = (Ret a, w1) ->
  exists s1, op (srv w) = (Ret a, s1) /\
             w1 = mkEnv s1 (stdout w) (trace w ++ [c]).
Proof.
  rewrite remote_run. destruct (op (srv w)) as [r s1]. simpl.
  intros [= -> <-]. eauto.
Qed.

Lemma print_run (s : str) (w : Env S) :
  print s w = (Ret tt, mkEnv (srv w) (stdout w ++ [s]) (trace w)).
Proof. reflexivity. Qed.

End Inversion.

(** ** Collections on the reference server *)

Lemma hits_nil dist w n q : hits dist [] w n q = [].
Proof. apply hits_none. intros d Hd. by apply elem_of_nil in Hd. Qed.

Lemma mem_delete_ret c nm s s' :
  mem_delete c nm s = (Ret tt, s') ->
  served s /\ is_Some (colls s !! nm) /\
  s' = with_colls (tick s) (delete nm (colls s)).
Proof.
  unfold mem_delete. intros Hd. apply request_ret in Hd as [Hs Hd].
  change (colls (tick s)) with (colls s) in Hd.
  destruct (colls s !! nm) as [k|]; [|discriminate].
  injection Hd as <-. eauto.
Qed.

Lemma mem_get_or_create_ret c nm ef s col s' :
  mem_get_or_create c nm ef s = (Ret col, s') ->
  served s /\
  match colls s !! nm with
  | Some k => col = mkCollection nm (coll_uuid k) ef /\ s' = tick s
  | None =>
      col = mkCollection nm (next_uuid s) ef /\
      s' = mkServer (tail (faults s)) (dist s)
             (<[nm := mkColl (next_uuid s) []]> (colls s))
             (N.succ (next_uuid s))
  end.
Proof.
  unfold mem_get_or_create. intros Hg. apply request_ret in Hg as [Hs Hg].
  change (colls (tick s)) with (colls s) in Hg.
  split; [done |].
  destruct (colls s !! nm) as [k|]; injection Hg as <- <-; auto.
Qed.

(** A successful [reset_collection], step by step. *)
Lemma reset_mem_ret (g g' : Globals) (w w' : Env Server) :
  reset_collection g w = (Ret g', w') ->
  served (srv w) /\ served (tick (srv w)) /\
  is_Some (colls (srv w) !! COLLECTION_NAME) /\
  g' = mkGlobals (client g)
         (mkCollection COLLECTION_NAME (next_uuid (srv w)) (embedding_func g))
         (embedding_func g) /\
  w' = mkEnv
         (mkServer (tail (tail (faults (srv w)))) (dist (srv w))
            (<[COLLECTION_NAME := mkColl (next_uuid (srv w)) []]>
               (delete COLLECTION_NAME (colls (srv w))))
            (N.succ (next_uuid (srv w))))
         (stdout w ++ [lit "Collection " ++ COLLECTION_NAME ++ lit " deleted.";
                       lit "New empty collection created."])
         (trace w ++ [CDelete (client g) COLLECTION_NAME;
                      CGetOrCreate (client g) COLLECTION_NAME (embedding_func g)]).
Proof.
  unfold reset_collection. generalize COLLECTION_NAME as nm. intros nm Hr.
  apply bind_ret_inv in Hr as ([] & w1 & Hdel & Hr).
  apply remote_ret_inv in Hdel as (s1 & Hdel & ->).
  apply bind_ret_inv in Hr as ([] & w2 & Hp1 & Hr).
  rewrite print_run in Hp1. injection Hp1 as <-.
  apply bind_ret_inv in Hr as (col & w3 & Hgoc & Hr).
  apply remote_ret_inv in Hgoc as (s3 & Hgoc & ->).
  apply bind_ret_inv in Hr as ([] & w4 & Hp2 & Hr).
  rewrite print_run in Hp2. injection Hp2 as <-.
  unfold ret in Hr. injection Hr as <- <-.
  cbn [srv stdout trace] in *.
  apply mem_delete_ret in Hdel as (Hs & Hsome & ->).
  apply mem_get_or_create_ret in Hgoc as (Hs' & Hgoc).
  cbn [colls with_colls] in Hgoc. rewrite lookup_delete_eq in Hgoc.
  destruct Hgoc as [-> ->].
  repeat split; try done.
  rewrite <- !(assoc_L (++)). reflexivity.
Qed.

Lemma reset_mem_resolve (g g' : Globals) (w w' : Env Server) :
  reset_collection g w = (Ret g', w') ->
  resolve (srv w') (collection g') = Some (mkColl (next_uuid (srv w)) []).
Proof.
  intros Hr. apply reset_mem_ret in Hr as (_ & _ & _ & -> & ->).
  unfold resolve. cbn [srv collection col_name col_id colls].
  rewrite lookup_insert_eq. cbn [coll_uuid].
  by rewrite decide_True.
Qed.

(** ** Empty answers and reset *)

(** C5, as amended.  Against the reference server, a query with a positive
    result count on a collection that exists, when it is served, returns the
    empty list and raises nothing if the collection is empty, or if the
    customer filter is absent or a non-empty string and no stored document
    is in its scope.  In particular a query on a collection that was just
    reset returns the empty list.  (With the filter [""] the documents are
    returned although none is in the scope of that filter: see
    [no_match_counterexample].) *)
Theorem no_match_gives_empty :
  (forall (g : Globals) (q : str) (f : option str) (n : Z)
          (w : Env Server) (k : Coll),
     served (srv w) -> resolve (srv w) (collection g) = Some k -> 0 < n ->
     coll_docs k = [] \/
       (f <> Some [] /\ forall d, d ∈ coll_docs k -> ~ in_scope f d) ->
     exists w', query_vector_db g q f n w = (Ret [], w')) /\
  (forall (g g' : Globals) (q : str) (f : option str) (n : Z)
          (w w' : Env Server),
     reset_collection g w = (Ret g', w') ->
     served (srv w') -> 0 < n ->
     exists w'', query_vector_db g' q f n w' = (Ret [], w'')).
Proof.
  split.
  - intros g q f n w k Hs Hk Hn Hnone.
    rewrite (query_mem_served g q f n w k Hs Hk Hn).
    eexists. f_equal. f_equal.
    replace (hits _ _ _ _ _) with (@nil (Doc * Q)); [reflexivity |].
    symmetry. destruct Hnone as [-> | [Hf Hnone]]; [apply hits_nil |].
    apply hits_none. intros d Hd Hw. apply (Hnone d Hd).
    by apply where_in_scope.
  - intros g g' q f n w w' Hr Hs Hn.
    rewrite (query_mem_served g' q f n w' _ Hs (reset_mem_resolve _ _ _ _ Hr) Hn).
    cbn [coll_docs]. rewrite hits_nil. eauto.
Qed.

Lemma no_match_gives_empty_witness :
  (exists w',
     query_vector_db g0 (lit "renewal value") (Some (lit "Initech")) 5 env3
       = (Ret [], w')) /\
  (exists g' w',
     reset_collection g0 env3 = (Ret g', w') /\
     exists w'',
       query_vector_db g' (lit "renewal value") None 5 w' = (Ret [], w'')).
Proof.
  split.
  - apply (proj1 no_match_gives_empty g0 (lit "renewal value")
             (Some (lit "Initech")) 5 env3
             (mkColl 0 (stored (srv env3) (collection g0)))).
    + vm_compute; reflexivity.
    + vm_compute; reflexivity.
    + lia.
    + right. split; [discriminate |].
      apply Forall_forall. compute_done.
  - eexists _, _. split; [vm_compute; reflexivity |].
    eapply (proj2 no_match_gives_empty g0 _ (lit "renewal value") None 5 env3).
    + vm_compute; reflexivity.
    + vm_compute; reflexivity.
    + lia.
Defined.

(** C5 as stated fails for the filter [""]: no stored document has
    [customer_name == ""], so none matches that filter, and yet the query
    returns a record. *)
Lemma no_match_counterexample :
  (forall d, d ∈ stored (srv env2) (collection g0) ->
     ~ in_scope (Some (lit "")) d) /\
  exists R w',
    query_vector_db g0 (lit "renewal value") (Some (lit "")) 5 env2
      = (Ret [R], w').
Proof.
  split.
  - apply Forall_forall. compute_done.
  - eexists _, _. vm_compute; reflexivity.
Qed.

(** C6.  When [reset_collection] returns, against the reference server: it
    has sent a delete of the collection name and then a get-or-create of the
    same name with the embedding function of the module; the module's
    [collection] now is the object that call returned, bound to the same
    embedding function, while [client] and [embedding_func] are unchanged;
    on the server the name denotes a new, empty collection; and every query
    with a positive result count, so in particular any query that returned
    results before the reset, now returns no result. *)
Theorem reset_destroys_documents (g g' : Globals) (w w' : Env Server) :
  reset_collection g w = (Ret g', w') ->
  trace w' =
    trace w ++ [CDelete (client g) COLLECTION_NAME;
                CGetOrCreate (client g) COLLECTION_NAME (embedding_func g)] /\
  is_Some (colls (srv w) !! COLLECTION_NAME) /\
  g' = mkGlobals (client g)
         (mkCollection COLLECTION_NAME (next_uuid (srv w)) (embedding_func g))
         (embedding_func g) /\
  colls (srv w') !! COLLECTION_NAME = Some (mkColl (next_uuid (srv w)) []) /\
  stored (srv w') (collection g') = [] /\
  (forall q f n, served (srv w') -> 0 < n ->
     exists w'', query_vector_db g' q f n w' = (Ret [], w'')) /\
  (forall q f n l w'', query_vector_db g' q f n w' = (Ret l, w'') -> l = []).
Proof.
  intros Hr.
  pose proof (reset_mem_resolve _ _ _ _ Hr) as Hres.
  pose proof (proj2 no_match_gives_empty g g') as Hempty.
  pose proof Hr as Hr'.
  apply reset_mem_ret in Hr' as (_ & _ & Hsome & Hg & Hw).
  split; [by rewrite Hw |]. split; [done |]. split; [done |].
  split; [rewrite Hw; cbn [srv colls]; apply lookup_insert_eq |].
  split; [unfold stored; by rewrite Hres |].
  split.
  - intros q f n Hs Hn. by apply (Hempty q f n w w').
  - intros q f n l w'' Hq.
    apply query_mem_ret in Hq as (k & _ & Hk & _ & ->).
    rewrite Hres in Hk. injection Hk as <-. cbn [coll_docs].
    by rewrite hits_nil.
Qed.

Lemma reset_destroys_documents_witness :
  exists l w1 g' w2,
    query_vector_db g0 (lit "renewal value") None 5 env3 = (Ret l, w1) /\
    length l = 2%nat /\
    reset_collection g0 w1 = (Ret g', w2) /\
    trace w2 =
      trace w1 ++ [CDelete (client g0) COLLECTION_NAME;
                   CGetOrCreate (client g0) COLLECTION_NAME (embedding_func g0)] /\
    is_Some (colls (srv w1) !! COLLECTION_NAME) /\
    g' = mkGlobals (client g0)
           (mkCollection COLLECTION_NAME (next_uuid (srv w1)) (embedding_func g0))
           (embedding_func g0) /\
    colls (srv w2) !! COLLECTION_NAME = Some (mkColl (next_uuid (srv w1)) []) /\
    stored (srv w2) (collection g') = [] /\
    (forall q f n, served (srv w2) -> 0 < n ->
       exists w'', query_vector_db g' q f n w2 = (Ret [], w'')) /\
    (forall q f n l w'', query_vector_db g' q f n w2 = (Ret l, w'') -> l = []).
Proof.
  eexists _, _, _, _. split; [vm_compute; reflexivity |].
  split; [reflexivity |]. split; [vm_compute; reflexivity |].
  eapply (reset_destroys_documents g0).
  vm_compute; reflexivity.
Defined.

(** ** Ingesting *)

(** The ids after an upsert: unchanged if the id was stored, one more at the
    end otherwise. *)
Lemma upsert_ids (d : Doc) (l : list Doc) :
  map doc_id (upsert d l) =
    if decide (doc_id d ∈ map doc_id l) then map doc_id l
    else map doc_id l ++ [doc_id d].
Proof.
  induction l as [|x l IH]; cbn [upsert map].
  - destruct (decide (doc_id d ∈ [])) as [Hin | _]; [|done].
    by apply elem_of_nil in Hin.
  - destruct (decide (doc_id x = doc_id d)) as [Heq | Hne]; cbn [map].
    + destruct (decide (doc_id d ∈ doc_id x :: map doc_id l)) as [_ | Hnin].
      * by rewrite Heq.
      * exfalso. apply Hnin. rewrite Heq. left.
    + rewrite IH.
      destruct (decide (doc_id d ∈ map doc_id l)) as [Hin | Hnin];
        destruct (decide (doc_id d ∈ doc_id x :: map doc_id l)) as [Hin' | Hnin'];
        try done.
      * exfalso. apply Hnin'. by right.
      * exfalso. apply elem_of_cons in Hin' as [? | ?]; congruence.
Qed.

Lemma upsert_id_stored (d : Doc) (l : list Doc) :
  doc_id d ∈ map doc_id (upsert d l).
Proof.
  rewrite upsert_ids. destruct (decide _) as [Hin | _]; [done |].
  apply elem_of_app. right. left.
Qed.

Lemma upsert_again (d d' : Doc) (l : list Doc) :
  doc_id d = doc_id d' ->
  map doc_id (upsert d (upsert d' l)) = map doc_id (upsert d' l).
Proof.
  intros Heq. rewrite (upsert_ids d). rewrite decide_True; [done |].
  rewrite Heq. apply upsert_id_stored.
Qed.

Lemma upsert_NoDup (d : Doc) (l : list Doc) :
  NoDup (map doc_id l) -> NoDup (map doc_id (upsert d l)).
Proof.
  intros Hnd. rewrite upsert_ids. destruct (decide _) as [_ | Hnin]; [done |].
  apply NoDup_app. split; [done |]. split.
  - intros x Hx Hx'%list_elem_of_singleton. congruence.
  - apply NoDup_singleton.
Qed.

Lemma resolve_uuid s c k : resolve s c = Some k -> coll_uuid k = col_id c.
Proof.
  unfold resolve. destruct (colls s !! col_name c) as [k'|]; [|discriminate].
  destruct (decide (coll_uuid k' = col_id c)); [|discriminate]. congruence.
Qed.

(** A served add of one document. *)
Lemma mem_add_ret c t md id s s' :
  mem_add c [t] [md] [id] s = (Ret tt, s') ->
  served s /\ scalar_metadata md = true /\
  exists k, resolve s c = Some k /\
            stored s' c = upsert (mkDoc id t (Some md)) (coll_docs k).
Proof.
  unfold mem_add. intros Ha. apply request_ret in Ha as [Hs Ha].
  change (resolve (tick s) c) with (resolve s c) in Ha.
  destruct (resolve s c) as [k|] eqn:Hk; [|discriminate].
  cbn [length Nat.eqb andb negb forallb zip3 map fold_left] in Ha.
  destruct (scalar_metadata md); [|discriminate].
  cbn [negb andb] in Ha. injection Ha as <-.
  repeat split; try done. exists k. split; [done |].
  unfold stored, resolve. cbn [colls with_colls].
  rewrite lookup_insert_eq. cbn [coll_uuid coll_docs].
  by rewrite decide_True by (by apply (resolve_uuid s)).
Qed.

(** An add with a value that is not a scalar is refused by the server,
    which stores nothing. *)
Lemma mem_add_nonscalar c t md id s k :
  served s -> resolve s c = Some k -> scalar_metadata md = false ->
  exists e, mem_add c [t] [md] [id] s = (Raise e, tick s) /\
            exn_cls e = ValueError.
Proof.
  intros Hs Hk Hmd. unfold mem_add. rewrite request_served by done.
  change (resolve (tick s) c) with (resolve s c). rewrite Hk.
  cbn [length Nat.eqb andb negb forallb]. rewrite Hmd.
  cbn [negb andb]. eauto.
Qed.

Lemma doc_id_of_encode (T : str) (b : Utf8.bytes) :
  Utf8.encode T = Ret b -> doc_id_of T = Ret (Sha256.hexdigest b).
Proof. unfold doc_id_of. by intros ->. Qed.

Lemma ingest_mem_ret (g : Globals) T md id (w w1 : Env Server) :
  doc_id_of T = Ret id ->
  ingest_to_vector_db g T md w = (Ret tt, w1) ->
  mem_add (collection g) [T] [md] [id] (srv w) = (Ret tt, srv w1) /\
  trace w1 = trace w ++ [CAdd (collection g) [T] [md] [id]].
Proof.
  intros Hid Hi. rewrite (ingest_run g T md id w Hid) in Hi. cbv zeta in Hi.
  change (collection_add (collection g) [T] [md] [id] (srv w))
    with (mem_add (collection g) [T] [md] [id] (srv w)) in Hi.
  destruct (mem_add _ _ _ _ _) as [[[]|e] s']; [|discriminate].
  injection Hi as <-. auto.
Qed.

(** C1.  Whatever the remote side is, for a text [T] with UTF-8 bytes [b]
    the one add request of [ingest_to_vector_db] carries the id
    [sha256_hex(b)], whatever the metadata.  Against the reference server,
    when [T] is ingested twice (with any two metadata mappings) both
    requests carry that id, the id is stored after the first, and the second
    leaves the list of stored ids as it was: one stored id, not two (and ids
    that were distinct before stay distinct). *)
Theorem ingest_same_text_same_id :
  (forall (S : Type) (api : Api S) (g : Globals) (T : str) (b : Utf8.bytes)
          (md : Metadata) (w : Env S),
     Utf8.encode T = Ret b ->
     trace (ingest_to_vector_db g T md w).2 =
       trace w ++ [CAdd (collection g) [T] [md] [Sha256.hexdigest b]]) /\
  (forall (g : Globals) (T : str) (b : Utf8.bytes) (md1 md2 : Metadata)
          (w w1 w2 : Env Server),
     Utf8.encode T = Ret b ->
     ingest_to_vector_db g T md1 w = (Ret tt, w1) ->
     ingest_to_vector_db g T md2 w1 = (Ret tt, w2) ->
     let id := Sha256.hexdigest b in
     let ids (e : Env Server) := map doc_id (stored (srv e) (collection g)) in
     trace w2 =
       trace w ++ [CAdd (collection g) [T] [md1] [id];
                   CAdd (collection g) [T] [md2] [id]] /\
     id ∈ ids w1 /\
     ids w2 = ids w1 /\
     (NoDup (ids w) -> NoDup (ids w2))).
Proof.
  split.
  - intros S api g T b md w Hb.
    rewrite (ingest_run g T md _ w (doc_id_of_encode T b Hb)). reflexivity.
  - intros g T b md1 md2 w w1 w2 Hb H1 H2 id ids.
    pose proof (doc_id_of_encode T b Hb) as Hid.
    apply (ingest_mem_ret g T md1 _ w w1 Hid) in H1 as [Ha1 Ht1].
    apply (ingest_mem_ret g T md2 _ w1 w2 Hid) in H2 as [Ha2 Ht2].
    apply mem_add_ret in Ha1 as (_ & _ & k & Hk & Hst1).
    apply mem_add_ret in Ha2 as (_ & _ & k1 & Hk1 & Hst2).
    assert (Hk1' : coll_docs k1 = stored (srv w1) (collection g))
      by (unfold stored; by rewrite Hk1).
    assert (Hk' : coll_docs k = stored (srv w) (collection g))
      by (unfold stored; by rewrite Hk).
    subst ids. cbv beta. rewrite Hst2, Hk1', Hst1, Hk'.
    split; [rewrite Ht2, Ht1, <- (assoc_L (++)); reflexivity |].
    split; [apply (upsert_id_stored (mkDoc id T (Some md1))) |].
    split; [by apply upsert_again |].
    intros Hnd. rewrite upsert_again by done. by apply upsert_NoDup.
Qed.

Lemma ingest_same_text_same_id_witness :
  exists b w1 w2,
    Utf8.encode acme_text = Ret b /\
    ingest_to_vector_db g0 acme_text acme_meta env1 = (Ret tt, w1) /\
    ingest_to_vector_db g0 acme_text globex_meta w1 = (Ret tt, w2) /\
    length (stored (srv w2) (collection g0)) = 1%nat /\
    trace w2 =
      trace env1 ++
        [CAdd (collection g0) [acme_text] [acme_meta] [Sha256.hexdigest b];
         CAdd (collection g0) [acme_text] [globex_meta] [Sha256.hexdigest b]] /\
    Sha256.hexdigest b ∈ map doc_id (stored (srv w1) (collection g0)) /\
    map doc_id (stored (srv w2) (collection g0)) =
      map doc_id (stored (srv w1) (collection g0)) /\
    (NoDup (map doc_id (stored (srv env1) (collection g0))) ->
     NoDup (map doc_id (stored (srv w2) (collection g0)))).
Proof.
  eexists _, _, _.
  split; [vm_compute; reflexivity |].
  split; [vm_compute; reflexivity |].
  split; [vm_compute; reflexivity |].
  split; [vm_compute; reflexivity |].
  eapply (proj2 ingest_same_text_same_id g0 acme_text _ acme_meta globex_meta
            env1).
  - vm_compute; reflexivity.
  - vm_compute; reflexivity.
  - vm_compute; reflexivity.
Defined.

(** The ids of two texts, as [hashlib] gives them. *)
Example doc_id_examples :
  doc_id_of acme_text =
    Ret (lit "ee8f0aaec58a87c46e638208f2e81229930cd2514d5cb38f846bf73469a952e3") /\
  doc_id_of [0x63; 0x61; 0x66; 0xE9; 0x20; 0x20AC]%N =
    Ret (lit "e66baa599b628bfeacdf904db6d22eb50d9feaadb2947a689b1ef83707a1d4f2").
Proof. split; vm_compute; reflexivity. Qed.

(** C7, as amended.  [ingest_to_vector_db] neither rejects nor coerces
    metadata: whatever the remote side is and whatever the metadata mapping
    holds, scalar or not, the add request carries the mapping as it was
    given, and an error the remote side raises is the error the caller gets.
    Rejection is left to the remote side: the reference server refuses a
    value that is not a scalar with a [ValueError] and stores nothing. *)
Theorem metadata_passed_unchanged :
  (forall (S : Type) (api : Api S) (g : Globals) (T id : str)
          (md : Metadata) (w : Env S),
     doc_id_of T = Ret id ->
     trace (ingest_to_vector_db g T md w).2 =
       trace w ++ [CAdd (collection g) [T] [md] [id]] /\
     forall e s',
       collection_add (collection g) [T] [md] [id] (srv w) = (Raise e, s') ->
       (ingest_to_vector_db g T md w).1 = Raise e) /\
  (forall (g : Globals) (T id : str) (md : Metadata) (w : Env Server) (k : Coll),
     doc_id_of T = Ret id ->
     scalar_metadata md = false ->
     served (srv w) -> resolve (srv w) (collection g) = Some k ->
     exists e,
       (ingest_to_vector_db g T md w).1 = Raise e /\
       exn_cls e = ValueError /\
       stored (srv (ingest_to_vector_db g T md w).2) (collection g) =
         stored (srv w) (collection g)).
Proof.
  split.
  - intros S api g T id md w Hid.
    rewrite (ingest_run g T md id w Hid). cbv zeta. split; [reflexivity |].
    intros e s' Hadd. rewrite Hadd. reflexivity.
  - intros g T id md w k Hid Hmd Hs Hk.
    destruct (mem_add_nonscalar (collection g) T md id (srv w) k Hs Hk Hmd)
      as (e & Hadd & He).
    exists e. rewrite (ingest_run g T md id w Hid). cbv zeta.
    change (collection_add (collection g) [T] [md] [id] (srv w))
      with (mem_add (collection g) [T] [md] [id] (srv w)).
    rewrite Hadd. auto.
Qed.

Lemma metadata_passed_unchanged_witness :
  exists id,
    doc_id_of acme_text = Ret id /\
    (trace (ingest_to_vector_db g0 acme_text tagged_meta env1).2 =
       trace env1 ++ [CAdd (collection g0) [acme_text] [tagged_meta] [id]] /\
     forall e s',
       collection_add (collection g0) [acme_text] [tagged_meta] [id] (srv env1)
         = (Raise e, s') ->
       (ingest_to_vector_db g0 acme_text tagged_meta env1).1 = Raise e) /\
    exists e,
      (ingest_to_vector_db g0 acme_text tagged_meta env1).1 = Raise e /\
      exn_cls e = ValueError /\
      stored (srv (ingest_to_vector_db g0 acme_text tagged_meta env1).2)
             (collection g0) =
        stored (srv env1) (collection g0).
Proof.
  eexists. split; [vm_compute; reflexivity |]. split.
  - eapply (proj1 metadata_passed_unchanged Server api g0 acme_text _
              tagged_meta env1).
    vm_compute; reflexivity.
  - eapply (proj2 metadata_passed_unchanged g0 acme_text _ tagged_meta env1
              (mkColl 0 [])).
    + vm_compute; reflexivity.
    + vm_compute; reflexivity.
    + vm_compute; reflexivity.
    + vm_compute; reflexivity.
Defined.

(** C7 as stated fails: a mapping that holds a list is neither refused
    before the request nor changed; the add request that goes out carries
    that very mapping, list included. *)
Lemma nonscalar_metadata_counterexample :
  tagged_meta !! lit "tags" =
    Some (VList [SStr (lit "renewal"); SStr (lit "upsell")]) /\
  is_scalar (VList [SStr (lit "renewal"); SStr (lit "upsell")]) = false /\
  exists id,
    trace (ingest_to_vector_db g0 acme_text tagged_meta env1).2 =
      trace env1 ++ [CAdd (collection g0) [acme_text] [tagged_meta] [id]].
Proof.
  split; [vm_compute; reflexivity |]. split; [reflexivity |].
  eexists. vm_compute; reflexivity.
Qed.

(** ** Initialisation *)

Section Init.
Context {S : Type} `{Api S}.

Lemma construct_run {A} (op : S -> outcome A * S) (w : Env S) :
  construct op w = ((op (srv w)).1, mkEnv (op (srv w)).2 (stdout w) (trace w)).
Proof. unfold construct. destruct (op (srv w)); reflexivity. Qed.

(** The five ways [get_vector_client_and_collection] can go. *)
Lemma get_vector_client_and_collection_run (cfg : Config) (w : Env S) :
  get_vector_client_and_collection cfg w =
    match HttpClient (CHROMA_HOST cfg) (CHROMA_PORT cfg) (CHROMA_SSL cfg)
            (headers cfg) (srv w) with
    | (Raise e, s0) => (Raise e, mkEnv s0 (stdout w) (trace w))
    | (Ret c, s0) =>
        match heartbeat c s0 with
        | (Raise e, s1) =>
            (Raise e,
             mkEnv s1 (stdout w ++ [failed_connect_msg e])
               (trace w ++ [CHeartbeat c]))
        | (Ret _, s1) =>
            match OpenAIEmbeddingFunction (OPENAI_API_KEY cfg)
                    (lit "text-embedding-3-small") s1 with
            | (Raise e, s2) =>
                (Raise e,
                 mkEnv s2 (stdout w ++ [connected_msg cfg])
                   (trace w ++ [CHeartbeat c]))
            | (Ret ef, s2) =>
                match get_or_create_collection c COLLECTION_NAME ef s2 with
                | (Ret col, s3) =>
                    (Ret (mkGlobals c col ef),
                     mkEnv s3 (stdout w ++ [connected_msg cfg])
                       ((trace w ++ [CHeartbeat c])
                        ++ [CGetOrCreate c COLLECTION_NAME ef]))
                | (Raise e, s3) =>
                    (Raise e,
                     mkEnv s3 (stdout w ++ [connected_msg cfg])
                       ((trace w ++ [CHeartbeat c])
                        ++ [CGetOrCreate c COLLECTION_NAME ef]))
                end
            end
        end
    end.
Proof.
  unfold get_vector_client_and_collection, bind, try_except, print, raise, ret.
  rewrite construct_run.
  destruct (HttpClient _ _ _ _ (srv w)) as [[c|e] s0]; cbn [fst snd];
    [|reflexivity].
  rewrite remote_run. cbn [srv stdout trace].
  destruct (heartbeat c s0) as [[z|e] s1]; cbn [fst snd]; [|reflexivity].
  rewrite construct_run. cbn [srv stdout trace].
  destruct (OpenAIEmbeddingFunction _ _ s1) as [[ef|e] s2]; cbn [fst snd];
    [|reflexivity].
  rewrite remote_run. cbn [srv stdout trace].
  destruct (get_or_create_collection _ _ _ s2) as [[col|e] s3]; reflexivity.
Qed.

Lemma module_init_run (cfg : Config) (w : Env S) :
  module_init cfg w =
    match get_vector_client_and_collection cfg w with
    | (Ret g, w1) =>
        (Ret g, mkEnv (srv w1) (stdout w1 ++ [initialized_msg]) (trace w1))
    | (Raise e, w1) =>
        (Raise e, mkEnv (srv w1) (stdout w1 ++ [failed_init_msg e]) (trace w1))
    end.
Proof.
  unfold module_init, try_except, bind, print, raise, ret.
  destruct (get_vector_client_and_collection cfg w) as [[g|e] w1]; reflexivity.
Qed.

End Init.

Lemma heartbeats_snoc (t : list Call) (c : Call) :
  length (List.filter is_heartbeat (t ++ [c])) =
    (length (List.filter is_heartbeat t) + if is_heartbeat c then 1 else 0)%nat.
Proof.
  rewrite List.filter_app, length_app. cbn [List.filter].
  destruct (is_heartbeat c); reflexivity.
Qed.

(** C8, as amended.  Whatever the remote side is, the initialisation of the
    module makes at most one liveness check and never a second one.  When
    the check raises, the initialisation raises that same error, whatever
    its class, after printing the two diagnostics, and sends nothing else.
    The initialisation raises exactly when one of the four calls it makes
    raises, and then with the error of that call: the construction of the
    client, the liveness check, the construction of the embedding function,
    the get-or-create of the collection.  So it also raises when the
    liveness check has completed. *)
Theorem init_reraises_what_failed {S : Type} `{Api S}
  (cfg : Config) (w : Env S) :
  let new_client :=
    HttpClient (CHROMA_HOST cfg) (CHROMA_PORT cfg) (CHROMA_SSL cfg)
      (headers cfg) in
  let new_embedding :=
    OpenAIEmbeddingFunction (OPENAI_API_KEY cfg)
      (lit "text-embedding-3-small") in
  let r := module_init cfg w in
  (length (List.filter is_heartbeat (trace r.2)) <=
     length (List.filter is_heartbeat (trace w)) + 1)%nat /\
  (forall c s0 e s1,
     new_client (srv w) = (Ret c, s0) ->
     heartbeat c s0 = (Raise e, s1) ->
     r = (Raise e,
          mkEnv s1 (stdout w ++ [failed_connect_msg e; failed_init_msg e])
            (trace w ++ [CHeartbeat c]))) /\
  (forall e,
     r.1 = Raise e <->
     (exists s0, new_client (srv w) = (Raise e, s0)) \/
     (exists c s0,
        new_client (srv w) = (Ret c, s0) /\
        ((exists s1, heartbeat c s0 = (Raise e, s1)) \/
         (exists z s1,
            heartbeat c s0 = (Ret z, s1) /\
            ((exists s2, new_embedding s1 = (Raise e, s2)) \/
             (exists ef s2 s3,
                new_embedding s1 = (Ret ef, s2) /\
                get_or_create_collection c COLLECTION_NAME ef s2
                  = (Raise e, s3))))))).
Proof.
  cbv zeta. rewrite module_init_run, get_vector_client_and_collection_run.
  destruct (HttpClient _ _ _ _ (srv w)) as [[c|e0] s0] eqn:Hc.
  2:{ cbn [fst snd trace]. split; [lia |].
      split; [intros c s0' e s1 [=] |].
      intros e. split.
      - intros [= <-]. left. eauto.
      - intros [(s0' & [= <- <-]) | (c & s0' & [=] & _)]. reflexivity. }
  destruct (heartbeat c s0) as [[z|e0] s1] eqn:Hhb.
  2:{ cbn [fst snd trace srv stdout].
      split; [rewrite heartbeats_snoc; cbn [is_heartbeat]; lia |].
      split.
      - intros c' s0' e s1' [= <- <-] Hhb'. rewrite Hhb in Hhb'.
        injection Hhb' as <- <-. by rewrite <- (assoc_L (++)).
      - intros e. split.
        + intros [= <-]. right. exists c, s0. split; [done |]. left. eauto.
        + intros [(s0' & [=]) | (c' & s0' & [= <- <-] & Hrest)].
          destruct Hrest as [(s1' & Hhb') | (z & s1' & Hhb' & _)];
            rewrite Hhb in Hhb'; [by injection Hhb' as <- | discriminate]. }
  destruct (OpenAIEmbeddingFunction _ _ s1) as [[ef|e0] s2] eqn:Hef.
  2:{ cbn [fst snd trace srv stdout].
      split; [rewrite heartbeats_snoc; cbn [is_heartbeat]; lia |].
      split.
      - intros c' s0' e s1' [= <- <-] Hhb'. rewrite Hhb in Hhb'. discriminate.
      - intros e. split.
        + intros [= <-]. right. exists c, s0. split; [done |]. right.
          exists z, s1. split; [done |]. left. eauto.
        + intros [(s0' & [=]) | (c' & s0' & [= <- <-] & Hrest)].
          destruct Hrest as [(s1' & Hhb') | (z' & s1' & Hhb' & Hrest)];
            rewrite Hhb in Hhb'; [discriminate |].
          injection Hhb' as <- <-.
          destruct Hrest as [(s2' & Hef') | (ef & s2' & s3 & Hef' & _)];
            rewrite Hef in Hef'; [by injection Hef' as <- | discriminate]. }
  destruct (get_or_create_collection c COLLECTION_NAME ef s2)
    as [[col|e0] s3] eqn:Hgoc; cbn [fst snd trace srv stdout].
  - split; [rewrite !heartbeats_snoc; cbn [is_heartbeat]; lia |].
    split.
    + intros c' s0' e s1' [= <- <-] Hhb'. rewrite Hhb in Hhb'. discriminate.
    + intros e. split; [discriminate |].
      intros [(s0' & [=]) | (c' & s0' & [= <- <-] & Hrest)].
      destruct Hrest as [(s1' & Hhb') | (z' & s1' & Hhb' & Hrest)];
        rewrite Hhb in Hhb'; [discriminate |].
      injection Hhb' as <- <-.
      destruct Hrest as [(s2' & Hef') | (ef' & s2' & s3' & Hef' & Hgoc')];
        rewrite Hef in Hef'; [discriminate |].
      injection Hef' as <- <-. rewrite Hgoc in Hgoc'. discriminate.
  - split; [rewrite !heartbeats_snoc; cbn [is_heartbeat]; lia |].
    split.
    + intros c' s0' e s1' [= <- <-] Hhb'. rewrite Hhb in Hhb'. discriminate.
    + intros e. split.
      * intros [= <-]. right. exists c, s0. split; [done |]. right.
        exists z, s1. split; [done |]. right. eauto.
      * intros [(s0' & [=]) | (c' & s0' & [= <- <-] & Hrest)].
        destruct Hrest as [(s1' & Hhb') | (z' & s1' & Hhb' & Hrest)];
          rewrite Hhb in Hhb'; [discriminate |].
        injection Hhb' as <- <-.
        destruct Hrest as [(s2' & Hef') | (ef' & s2' & s3' & Hef' & Hgoc')];
          rewrite Hef in Hef'; [discriminate |].
        injection Hef' as <- <-. rewrite Hgoc in Hgoc'.
        by injection Hgoc' as <-.
Qed.

Lemma init_reraises_what_failed_witness :
  module_init cfg0 (mkEnv srv_flaky [] []) =
    (Raise refused,
     mkEnv (mkServer [] dist0 ∅ 0)
       ([] ++ [failed_connect_msg refused; failed_init_msg refused])
       ([] ++ [CHeartbeat client0])).
Proof.
  apply (proj1 (proj2 (init_reraises_what_failed cfg0 (mkEnv srv_flaky [] [])))
           client0 (mkServer [Some refused] dist0 ∅ 0) refused
           (mkServer [] dist0 ∅ 0));
    vm_compute; reflexivity.
Defined.

(** What the import prints and sends when the server cannot be reached: the
    construction of the client fails, before any liveness check. *)
Example import_fails :
  module_init cfg0 (mkEnv srv_down [] []) =
    (Raise refused,
     mkEnv (mkServer [] dist0 ∅ 0)
       [lit "Failed to initialize Chroma client: Could not connect to a Chroma server. Are you sure it is running?"]
       []).
Proof. vm_compute. reflexivity. Qed.

(** C8 as stated fails twice over.  With no API key configured, the
    liveness check completes (its success line is printed) and the
    initialisation raises all the same, when the embedding function is
    built.  And the error the initialisation raises is the one it caught:
    when it is the liveness check that failed, here with a [ValueError], that
    [ValueError] comes out, not a [ConnectionError]. *)
Lemma init_counterexample :
  ((heartbeat client0 srv0).1 = Ret 0 /\
   module_init Scenarios.cfg_nokey env0 =
     (Raise missing_api_key,
      mkEnv srv0
        [lit "Connected to Chroma server at chroma.example.com:443";
         lit "Failed to initialize Chroma client: The OPENAI_API_KEY environment variable is not set."]
        [CHeartbeat client0])) /\
  ((heartbeat client0 (mkServer [Some refused] dist0 ∅ 0)).1 = Raise refused /\
   (module_init cfg0 (mkEnv srv_flaky [] [])).1 = Raise refused /\
   exn_cls refused <> ConnectionError).
Proof.
  split; [split; vm_compute; reflexivity |].
  split; [vm_compute; reflexivity |].
  split; [vm_compute; reflexivity | discriminate].
Qed.

(** ** UTF-8 *)

(** The bit operations of the encoder, as arithmetic. *)
Lemma lor_small_add (hi bound x : Z) :
  Forall (fun y => Z.lor hi y = hi + y) (seqZ 0 bound) ->
  0 <= x < bound -> Z.lor hi x = hi + x.
Proof.
  intros Hall Hx. rewrite Forall_forall in Hall. apply Hall.
  apply elem_of_seqZ. lia.
Qed.

Lemma lor_80 x : 0 <= x < 64 -> Z.lor 0x80 x = 0x80 + x.
Proof. apply lor_small_add. compute_done. Qed.
Lemma lor_C0 x : 0 <= x < 32 -> Z.lor 0xC0 x = 0xC0 + x.
Proof. apply lor_small_add. compute_done. Qed.
Lemma lor_E0 x : 0 <= x < 16 -> Z.lor 0xE0 x = 0xE0 + x.
Proof. apply lor_small_add. compute_done. Qed.
Lemma lor_F0 x : 0 <= x < 8 -> Z.lor 0xF0 x = 0xF0 + x.
Proof. apply lor_small_add. compute_done. Qed.

Lemma cont_arith (c s : N) :
  Utf8.cont c s = 0x80 + (Z.of_N c / 2 ^ Z.of_N s) mod 64.
Proof.
  unfold Utf8.cont.
  rewrite Z.shiftr_div_pow2 by lia.
  change 0x3F with (Z.ones 6). rewrite Z.land_ones by lia.
  apply lor_80. apply Z.mod_pos_bound. lia.
Qed.

(** The encoding of one code point, case by case. *)
Lemma encode_cp_cases (c : N) :
  let z := Z.of_N c in
  Utf8.encode_cp c =
    if (c <? 0x80)%N then Some [z]
    else if (c <? 0x800)%N then Some [0xC0 + z / 64; 0x80 + z mod 64]
    else if (c <? 0x10000)%N then
      if ((0xD800 <=? c) && (c <=? 0xDFFF))%N then None
      else Some [0xE0 + z / 4096; 0x80 + (z / 64) mod 64; 0x80 + z mod 64]
    else if (c <? 0x110000)%N then
      Some [0xF0 + z / 262144; 0x80 + (z / 4096) mod 64;
            0x80 + (z / 64) mod 64; 0x80 + z mod 64]
    else None.
Proof.
  cbv zeta. unfold Utf8.encode_cp. rewrite !cont_arith.
  change (2 ^ Z.of_N 0) with 1. change (2 ^ Z.of_N 6) with 64.
  change (2 ^ Z.of_N 12) with 4096. rewrite Z.div_1_r.
  rewrite !Z.shiftr_div_pow2 by lia.
  change (2 ^ 6) with 64. change (2 ^ 12) with 4096.
  change (2 ^ 18) with 262144.
  destruct (N.ltb_spec c 0x80); [reflexivity |].
  destruct (N.ltb_spec c 0x800).
  { rewrite lor_C0; [reflexivity |].
    split; [apply Z.div_pos; lia | apply Z.div_lt_upper_bound; lia]. }
  destruct (N.ltb_spec c 0x10000).
  { destruct (_ && _)%N; [reflexivity |].
    rewrite lor_E0; [reflexivity |].
    split; [apply Z.div_pos; lia | apply Z.div_lt_upper_bound; lia]. }
  destruct (N.ltb_spec c 0x110000); [|reflexivity].
  rewrite lor_F0; [reflexivity |].
  split; [apply Z.div_pos; lia | apply Z.div_lt_upper_bound; lia].
Qed.

(** A code point that cannot be encoded: a surrogate, or beyond U+10FFFF. *)
Lemma encode_cp_None (c : N) :
  Utf8.encode_cp c = None <->
  ((0xD800 <= c <= 0xDFFF) \/ 0x110000 <= c)%N.
Proof.
  rewrite encode_cp_cases. cbv zeta.
  destruct (N.ltb_spec c 0x80); [split; [discriminate | lia] |].
  destruct (N.ltb_spec c 0x800); [split; [discriminate | lia] |].
  destruct (N.ltb_spec c 0x10000).
  - destruct (N.leb_spec 0xD800 c); destruct (N.leb_spec c 0xDFFF); simpl;
      (split; [try discriminate; lia | try done; lia]).
  - destruct (N.ltb_spec c 0x110000); [split; [discriminate | lia] |].
    split; [lia | done].
Qed.

Lemma encode_opt_None (s : str) :
  Utf8.encode_opt s = None <->
  exists c, c ∈ s /\ ((0xD800 <= c <= 0xDFFF) \/ 0x110000 <= c)%N.
Proof.
  induction s as [|c s IH]; simpl.
  - split; [discriminate | intros (c & Hc & _); by apply elem_of_nil in Hc].
  - destruct (Utf8.encode_cp c) as [b|] eqn:Hc.
    + destruct (Utf8.encode_opt s) as [bs|].
      * split; [discriminate |].
        intros (c' & [-> | Hin]%elem_of_cons & Hbad).
        -- apply encode_cp_None in Hbad. congruence.
        -- pose proof (proj2 IH (ex_intro _ c' (conj Hin Hbad))).
           discriminate.
      * split; [|done]. intros _.
        destruct (proj1 IH eq_refl) as (c' & Hin & Hbad).
        exists c'. split; [by right | done].
    + split; [|done]. intros _. exists c. split; [left |].
      by apply encode_cp_None.
Qed.

(** Reading back one encoded code point, whatever follows it. *)
Lemma read_cp_encode_cp (c : N) (b rest : list Z) :
  Utf8.encode_cp c = Some b ->
  Utf8Read.read_cp (b ++ rest) = Some (c, rest) /\
  (1 <= length b <= 4)%nat /\ Forall (fun x => 0 <= x < 256) b.
Proof.
  rewrite encode_cp_cases. cbv zeta.
  destruct (N.ltb_spec c 0x80).
  { intros [= <-]. simpl. destruct (Z.ltb_spec (Z.of_N c) 0x80); [|lia].
    rewrite N2Z.id. repeat split; simpl; try lia.
    repeat constructor; lia. }
  destruct (N.ltb_spec c 0x800).
  { intros [= <-]. simpl. unfold Utf8Read.low6.
    pose proof (Z.div_mod (Z.of_N c) 64 ltac:(lia)).
    pose proof (Z.mod_pos_bound (Z.of_N c) 64 ltac:(lia)).
    assert (2 <= Z.of_N c / 64 < 32)
      by (split; [apply Z.div_le_lower_bound | apply Z.div_lt_upper_bound]; lia).
    destruct (Z.ltb_spec (0xC0 + Z.of_N c / 64) 0x80); [lia |].
    destruct (Z.ltb_spec (0xC0 + Z.of_N c / 64) 0xE0); [|lia].
    split; [|split; [simpl; lia | repeat constructor; lia]].
    f_equal. f_equal. lia. }
  destruct (N.ltb_spec c 0x10000).
  { destruct (_ && _)%N; [discriminate |].
    intros [= <-]. simpl. unfold Utf8Read.low6.
    pose proof (Z.div_mod (Z.of_N c) 64 ltac:(lia)).
    pose proof (Z.mod_pos_bound (Z.of_N c) 64 ltac:(lia)).
    pose proof (Z.div_mod (Z.of_N c / 64) 64 ltac:(lia)).
    pose proof (Z.mod_pos_bound (Z.of_N c / 64) 64 ltac:(lia)).
    assert (Z.of_N c / 64 / 64 = Z.of_N c / 4096) as Hd
      by (rewrite Z.div_div by lia; reflexivity).
    assert (0 <= Z.of_N c / 4096 < 16)
      by (split; [apply Z.div_pos | apply Z.div_lt_upper_bound]; lia).
    destruct (Z.ltb_spec (0xE0 + Z.of_N c / 4096) 0x80); [lia |].
    destruct (Z.ltb_spec (0xE0 + Z.of_N c / 4096) 0xE0); [lia |].
    destruct (Z.ltb_spec (0xE0 + Z.of_N c / 4096) 0xF0); [|lia].
    split; [|split; [simpl; lia | repeat constructor; lia]].
    f_equal. f_equal. lia. }
  destruct (N.ltb_spec c 0x110000); [|discriminate].
  intros [= <-]. simpl. unfold Utf8Read.low6.
  pose proof (Z.div_mod (Z.of_N c) 64 ltac:(lia)).
  pose proof (Z.mod_pos_bound (Z.of_N c) 64 ltac:(lia)).
  pose proof (Z.div_mod (Z.of_N c / 64) 64 ltac:(lia)).
  pose proof (Z.mod_pos_bound (Z.of_N c / 64) 64 ltac:(lia)).
  pose proof (Z.div_mod (Z.of_N c / 4096) 64 ltac:(lia)).
  pose proof (Z.mod_pos_bound (Z.of_N c / 4096) 64 ltac:(lia)).
  assert (Z.of_N c / 64 / 64 = Z.of_N c / 4096) as Hd
    by (rewrite Z.div_div by lia; reflexivity).
  assert (Z.of_N c / 4096 / 64 = Z.of_N c / 262144) as Hd'
    by (rewrite Z.div_div by lia; reflexivity).
  assert (0 <= Z.of_N c / 262144 < 8)
    by (split; [apply Z.div_pos | apply Z.div_lt_upper_bound]; lia).
  destruct (Z.ltb_spec (0xF0 + Z.of_N c / 262144) 0x80); [lia |].
  destruct (Z.ltb_spec (0xF0 + Z.of_N c / 262144) 0xE0); [lia |].
  destruct (Z.ltb_spec (0xF0 + Z.of_N c / 262144) 0xF0); [lia |].
  split; [|split; [simpl; lia | repeat constructor; lia]].
  f_equal. f_equal. lia.
Qed.

(** Two texts with the same bytes are the same text. *)
Lemma encode_opt_inj (s1 s2 : str) (b : list Z) :
  Utf8.encode_opt s1 = Some b -> Utf8.encode_opt s2 = Some b -> s1 = s2.
Proof.
  revert s2 b. induction s1 as [|c1 s1 IH]; intros [|c2 s2] b; simpl; try done.
  - intros [= <-].
    destruct (Utf8.encode_cp c2) as [bc|] eqn:Hc; [|discriminate].
    destruct (Utf8.encode_opt s2) as [bs|]; [|discriminate].
    destruct (read_cp_encode_cp c2 bc bs Hc) as (_ & Hlen & _).
    destruct bc; [simpl in Hlen; lia | discriminate].
  - destruct (Utf8.encode_cp c1) as [bc|] eqn:Hc; [|discriminate].
    destruct (Utf8.encode_opt s1) as [bs|]; [|discriminate].
    destruct (read_cp_encode_cp c1 bc bs Hc) as (_ & Hlen & _).
    intros [= <-] [=]. destruct bc; [simpl in Hlen; lia | discriminate].
  - destruct (Utf8.encode_cp c1) as [bc1|] eqn:Hc1; [|discriminate].
    destruct (Utf8.encode_opt s1) as [bs1|] eqn:Hs1; [|discriminate].
    destruct (Utf8.encode_cp c2) as [bc2|] eqn:Hc2; [|discriminate].
    destruct (Utf8.encode_opt s2) as [bs2|] eqn:Hs2; [|discriminate].
    intros [= <-] [= Heq].
    destruct (read_cp_encode_cp c1 bc1 bs1 Hc1) as (Hr1 & _).
    destruct (read_cp_encode_cp c2 bc2 bs2 Hc2) as (Hr2 & _).
    rewrite Heq, Hr1 in Hr2. injection Hr2 as -> ->.
    f_equal. by apply (IH s2 bs2).
Qed.

(** Lengths and byte range of an encoded text. *)
Lemma encode_opt_bytes (s : str) (b : list Z) :
  Utf8.encode_opt s = Some b ->
  (length s <= length b <= 4 * length s)%nat /\
  Forall (fun x => 0 <= x < 256) b.
Proof.
  revert b. induction s as [|c s IH]; intros b; simpl.
  { intros [= <-]. repeat split; simpl; try lia. constructor. }
  destruct (Utf8.encode_cp c) as [bc|] eqn:Hc; [|discriminate].
  destruct (Utf8.encode_opt s) as [bs|]; [|discriminate].
  intros [= <-].
  destruct (read_cp_encode_cp c bc bs Hc) as (_ & Hlen & Hrange).
  destruct (IH bs eq_refl) as (IHlen & IHrange).
  rewrite length_app. split; [lia | by apply Forall_app].
Qed.

(** ** The shape of an id *)

Lemma round_length (st : list Z) (kw : Z * Z) :
  length st = 8%nat -> length (Sha256.round st kw) = 8%nat.
Proof.
  intros Hl.
  do 9 (destruct st as [|? st]; try discriminate). reflexivity.
Qed.

Lemma rounds_length (kws : list (Z * Z)) (st : list Z) :
  length st = 8%nat -> length (fold_left Sha256.round kws st) = 8%nat.
Proof.
  revert st. induction kws as [|kw kws IH]; intros st Hl; simpl; [done |].
  apply IH. by apply round_length.
Qed.

Lemma compress_length (h block : list Z) :
  length h = 8%nat -> length (Sha256.compress h block) = 8%nat.
Proof.
  intros Hl. unfold Sha256.compress.
  rewrite length_zip_with, rounds_length by done. lia.
Qed.

Lemma blocks_length (blocks : list (list Z)) (h : list Z) :
  length h = 8%nat -> length (fold_left Sha256.compress blocks h) = 8%nat.
Proof.
  revert h. induction blocks as [|b bs IH]; intros h Hl; simpl; [done |].
  apply IH. by apply compress_length.
Qed.

Lemma be_bytes_range (n : nat) (x : Z) :
  length (Sha256.be_bytes n x) = n /\
  Forall (fun b => 0 <= b < 256) (Sha256.be_bytes n x).
Proof.
  induction n as [|n [IHl IHr]]; simpl; [split; [done | constructor] |].
  split; [by rewrite IHl |]. constructor; [|done].
  change 0xFF with (Z.ones 8). rewrite Z.land_ones by lia.
  apply Z.mod_pos_bound. lia.
Qed.

(** The digest is 32 bytes. *)
Lemma digest_bytes (msg : list Z) :
  length (Sha256.digest msg) = 32%nat /\
  Forall (fun b => 0 <= b < 256) (Sha256.digest msg).
Proof.
  unfold Sha256.digest. cbv zeta.
  set (hs := fold_left Sha256.compress _ Sha256.H0).
  assert (Hl : length hs = 8%nat) by (apply blocks_length; reflexivity).
  clearbody hs.
  do 9 (destruct hs as [|? hs]; try discriminate).
  cbn [map mjoin list_join app]. rewrite !app_nil_r.
  split.
  - rewrite !length_app. rewrite !(proj1 (be_bytes_range 4 _)). reflexivity.
  - repeat (apply Forall_app; split); apply be_bytes_range.
Qed.

Lemma hex_digit_lower (n : Z) : 0 <= n < 16 -> Hex.is_lower_hex (Sha256.hex_digit n).
Proof.
  intros Hn. unfold Sha256.hex_digit, Hex.is_lower_hex.
  destruct (Z.ltb_spec n 10); lia.
Qed.

Lemma hex_shape (b : list Z) :
  Forall (fun x => 0 <= x < 256) b ->
  length (Sha256.hex b) = (2 * length b)%nat /\
  Forall Hex.is_lower_hex (Sha256.hex b).
Proof.
  unfold Sha256.hex. induction 1 as [|x b Hx Hb [IHl IHr]]; simpl.
  - split; [done | constructor].
  - split; [rewrite IHl; lia |].
    constructor; [|constructor; [|done]]; apply hex_digit_lower.
    + rewrite Z.shiftr_div_pow2 by lia. change (2 ^ 4) with 16.
      split; [apply Z.div_pos | apply Z.div_lt_upper_bound]; lia.
    + change 0xF with (Z.ones 4). rewrite Z.land_ones by lia.
      apply Z.mod_pos_bound. lia.
Qed.

(** ** Texts and ids *)

(** X1.  [text.encode("utf-8")] raises exactly when the text holds a
    surrogate (U+D800 to U+DFFF) or a value beyond U+10FFFF, and what it
    raises is a [UnicodeEncodeError]; so [doc_id_of] gives an id for every
    other text. *)
Theorem utf8_encode_fails_iff (T : str) :
  (is_ret (Utf8.encode T) = false <->
   exists c, c ∈ T /\ ((0xD800 <= c <= 0xDFFF) \/ 0x110000 <= c)%N) /\
  (forall e, Utf8.encode T = Raise e -> exn_cls e = UnicodeEncodeError) /\
  is_ret (doc_id_of T) = is_ret (Utf8.encode T).
Proof.
  unfold doc_id_of, Utf8.encode. rewrite <- encode_opt_None.
  destruct (Utf8.encode_opt T) as [b|]; cbn [is_ret].
  - repeat split; try done. 
  - repeat split; try done. by intros e [= <-].
Qed.

(** X2.  The bytes of an encoded text: between one and four bytes per code
    point, each byte in 0..255, and for a text of ASCII characters the code
    points themselves. *)
Theorem utf8_encode_bytes (T : str) (b : Utf8.bytes) :
  Utf8.encode T = Ret b ->
  (length T <= length b <= 4 * length T)%nat /\
  Forall (fun x => 0 <= x < 256) b /\
  (Forall (fun c => (c < 0x80)%N) T -> b = map Z.of_N T).
Proof.
  unfold Utf8.encode.
  destruct (Utf8.encode_opt T) as [b'|] eqn:Hb; [|discriminate].
  intros [= <-].
  destruct (encode_opt_bytes T b' Hb) as [Hlen Hrange].
  split; [done |]. split; [done |].
  clear Hlen Hrange. revert b' Hb.
  induction T as [|c T IH]; intros b Hb Hascii; simpl in Hb.
  - by injection Hb as <-.
  - apply Forall_cons in Hascii as [Hc Hascii].
    rewrite encode_cp_cases in Hb. cbv zeta in Hb.
    destruct (N.ltb_spec c 0x80); [|lia].
    destruct (Utf8.encode_opt T) as [bs|]; [|discriminate].
    injection Hb as <-. simpl. f_equal. by apply IH.
Qed.

Lemma utf8_encode_bytes_witness :
  exists b,
    Utf8.encode acme_text = Ret b /\
    (length acme_text <= length b <= 4 * length acme_text)%nat /\
    Forall (fun x => 0 <= x < 256) b /\
    (Forall (fun c => (c < 0x80)%N) acme_text -> b = map Z.of_N acme_text).
Proof.
  eexists. split; [vm_compute; reflexivity |].
  eapply (utf8_encode_bytes acme_text). vm_compute; reflexivity.
Defined.

(** X3.  Two different texts never have the same bytes, so they get the
    same id only if SHA-256 gives two different byte strings the same
    digest. *)
Theorem same_id_needs_collision (T1 T2 id : str) :
  doc_id_of T1 = Ret id -> doc_id_of T2 = Ret id ->
  T1 = T2 \/
  exists b1 b2,
    Utf8.encode T1 = Ret b1 /\ Utf8.encode T2 = Ret b2 /\ b1 <> b2 /\
    Sha256.hexdigest b1 = Sha256.hexdigest b2.
Proof.
  unfold doc_id_of, Utf8.encode.
  destruct (Utf8.encode_opt T1) as [b1|] eqn:H1; [|discriminate].
  destruct (Utf8.encode_opt T2) as [b2|] eqn:H2; [|discriminate].
  intros [= <-] [= Heq].
  destruct (decide (b1 = b2)) as [<- | Hne].
  - left. by apply (encode_opt_inj T1 T2 b1).
  - right. exists b1, b2. auto.
Qed.

Lemma same_id_needs_collision_witness :
  exists id,
    doc_id_of acme_text = Ret id /\
    (acme_text = acme_text \/
     exists b1 b2,
       Utf8.encode acme_text = Ret b1 /\ Utf8.encode acme_text = Ret b2 /\
       b1 <> b2 /\ Sha256.hexdigest b1 = Sha256.hexdigest b2).
Proof.
  eexists. split; [vm_compute; reflexivity |].
  eapply (same_id_needs_collision acme_text acme_text);
    vm_compute; reflexivity.
Defined.

(** X4.  Every id is 64 characters long, each a digit or a letter from [a]
    to [f]; so the line [ingest_to_vector_db] prints always shows twelve
    characters of it. *)
Theorem doc_id_shape (T id : str) :
  doc_id_of T = Ret id ->
  length id = 64%nat /\ Forall Hex.is_lower_hex id /\
  length (take 12 id) = 12%nat.
Proof.
  unfold doc_id_of. destruct (Utf8.encode T) as [b|e]; [|discriminate].
  intros [= <-]. unfold Sha256.hexdigest.
  destruct (digest_bytes b) as [Hlen Hrange].
  destruct (hex_shape _ Hrange) as [Hl Hhex].
  rewrite Hlen in Hl. split; [done |]. split; [done |].
  rewrite length_take. lia.
Qed.

Lemma doc_id_shape_witness :
  exists id,
    doc_id_of acme_text = Ret id /\
    length id = 64%nat /\ Forall Hex.is_lower_hex id /\
    length (take 12 id) = 12%nat.
Proof.
  eexists. split; [vm_compute; reflexivity |].
  eapply (doc_id_shape acme_text). vm_compute; reflexivity.
Defined.

(* ===================================================================== *)
(** * Further properties of the connector *)
(* ===================================================================== *)

(** ** Runs against any remote side *)

Section MoreRuns.
Context {S : Type} `{Api S}.

(** The three ways [reset_collection] can go. *)
Lemma reset_collection_run (g : Globals) (w : Env S) :
  let c := client g in
  let ef := embedding_func g in
  let deleted := lit "Collection " ++ COLLECTION_NAME ++ lit " deleted." in
  reset_collection g w =
    match delete_collection c COLLECTION_NAME (srv w) with
    | (Raise e, s1) =>
        (Raise e, mkEnv s1 (stdout w) (trace w ++ [CDelete c COLLECTION_NAME]))
    | (Ret _, s1) =>
        match get_or_create_collection c COLLECTION_NAME ef s1 with
        | (Raise e, s2) =>
            (Raise e,
             mkEnv s2 (stdout w ++ [deleted])
               ((trace w ++ [CDelete c COLLECTION_NAME])
                ++ [CGetOrCreate c COLLECTION_NAME ef]))
        | (Ret col, s2) =>
            (Ret (mkGlobals c col ef),
             mkEnv s2
               ((stdout w ++ [deleted]) ++ [lit "New empty collection created."])
               ((trace w ++ [CDelete c COLLECTION_NAME])
                ++ [CGetOrCreate c COLLECTION_NAME ef]))
        end
    end.
Proof.
  cbv zeta. unfold reset_collection, bind, print, ret. rewrite remote_run.
  destruct (delete_collection (client g) COLLECTION_NAME (srv w))
    as [[[]|e] s1]; cbn [fst snd]; [|reflexivity].
  rewrite remote_run. cbn [srv stdout trace].
  destruct (get_or_create_collection _ _ _ s1) as [[col|e] s2]; reflexivity.
Qed.

(** [ingest_to_vector_db] on a text that does not encode. *)
Lemma ingest_run_unencodable (g : Globals) t md e (w : Env S) :
  doc_id_of t = Raise e -> ingest_to_vector_db g t md w = (Raise e, w).
Proof.
  intros He. unfold ingest_to_vector_db, bind, lift. by rewrite He.
Qed.

End MoreRuns.

(** ** Initialisation, ingest and query, step by step *)

(** X5.  When the four calls of the initialisation return (the
    construction of the client, the liveness check, the construction of the
    embedding function for model [text-embedding-3-small], the get-or-create
    of [sales_features]), the initialisation returns the client, the
    collection and the embedding function those calls returned; it prints
    the two success lines and has sent exactly the liveness check and then
    the get-or-create with that embedding function, both through that
    client.  The headers the client is built with hold
    [Authorization: Bearer] and the token when the token is a non-empty
    string, and nothing at all otherwise. *)
Theorem init_success {S : Type} `{Api S} (cfg : Config) (w : Env S)
  (c : Client) (z : Z) (ef : EmbeddingFunction) (col : Collection)
  (s0 s1 s2 s3 : S) :
  HttpClient (CHROMA_HOST cfg) (CHROMA_PORT cfg) (CHROMA_SSL cfg)
    (headers cfg) (srv w) = (Ret c, s0) ->
  heartbeat c s0 = (Ret z, s1) ->
  OpenAIEmbeddingFunction (OPENAI_API_KEY cfg)
    (lit "text-embedding-3-small") s1 = (Ret ef, s2) ->
  get_or_create_collection c (lit "sales_features") ef s2 = (Ret col, s3) ->
  module_init cfg w =
    (Ret (mkGlobals c col ef),
     mkEnv s3 (stdout w ++ [connected_msg cfg; initialized_msg])
       (trace w ++ [CHeartbeat c; CGetOrCreate c (lit "sales_features") ef])) /\
  (forall tok, CHROMA_AUTH_TOKEN cfg = Some tok -> tok <> [] ->
     headers cfg = {[ lit "Authorization" := lit "Bearer " ++ tok ]}) /\
  (CHROMA_AUTH_TOKEN cfg = None \/ CHROMA_AUTH_TOKEN cfg = Some [] ->
     headers cfg = ∅).
Proof.
  intros Hc Hhb Hef Hgoc.
  split; [|split].
  - rewrite module_init_run, get_vector_client_and_collection_run.
    rewrite Hc, Hhb, Hef. change COLLECTION_NAME with (lit "sales_features").
    rewrite Hgoc. cbn [srv stdout trace].
    by rewrite <- !(assoc_L (++)).
  - intros tok Htok Hne. unfold headers. rewrite Htok. by destruct tok.
  - intros [Htok | Htok]; unfold headers; by rewrite Htok.
Qed.

Lemma init_success_witness :
  module_init cfg0 env0 =
    (Ret (mkGlobals client0 (mkCollection (lit "sales_features") 0 ef0) ef0),
     mkEnv (mkServer [] dist0 {[ lit "sales_features" := mkColl 0 [] ]} 1)
       (stdout env0 ++ [connected_msg cfg0; initialized_msg])
       (trace env0 ++
          [CHeartbeat client0;
           CGetOrCreate client0 (lit "sales_features") ef0])) /\
  (forall tok, CHROMA_AUTH_TOKEN cfg0 = Some tok -> tok <> [] ->
     headers cfg0 = {[ lit "Authorization" := lit "Bearer " ++ tok ]}) /\
  (CHROMA_AUTH_TOKEN cfg0 = None \/ CHROMA_AUTH_TOKEN cfg0 = Some [] ->
     headers cfg0 = ∅).
Proof.
  apply (init_success cfg0 env0 client0 0 ef0
           (mkCollection (lit "sales_features") 0 ef0) srv0 srv0 srv0);
    vm_compute; reflexivity.
Defined.

(** X6.  A text that holds a surrogate, or a value beyond U+10FFFF, cannot
    be ingested: [ingest_to_vector_db] raises a [UnicodeEncodeError] before
    anything is sent or printed, whatever the remote side is. *)
Theorem ingest_unencodable_sends_nothing {S : Type} `{Api S}
  (g : Globals) (T : str) (md : Metadata) (w : Env S) (c : N) :
  c ∈ T -> ((0xD800 <= c <= 0xDFFF) \/ 0x110000 <= c)%N ->
  exists e,
    ingest_to_vector_db g T md w = (Raise e, w) /\
    exn_cls e = UnicodeEncodeError.
Proof.
  intros Hin Hbad.
  assert (Hnone : Utf8.encode_opt T = None) by (apply encode_opt_None; eauto).
  eexists. split.
  - apply ingest_run_unencodable. unfold doc_id_of, Utf8.encode.
    rewrite Hnone. reflexivity.
  - reflexivity.
Qed.

Lemma ingest_unencodable_sends_nothing_witness :
  exists e,
    ingest_to_vector_db g0 Scenarios.broken_text acme_meta env1 = (Raise e, env1) /\
    exn_cls e = UnicodeEncodeError.
Proof.
  apply (ingest_unencodable_sends_nothing g0 Scenarios.broken_text acme_meta
           env1 0xD800%N).
  - compute_done.
  - lia.
Defined.

(** X7.  [ingest_to_vector_db] prints its one line, with the first twelve
    characters of the id, only when the add returned; when the add raises,
    nothing is printed.  It returns exactly when the add returns. *)
Theorem ingest_confirms_only_success {S : Type} `{Api S}
  (g : Globals) (T id : str) (md : Metadata) (w : Env S) :
  doc_id_of T = Ret id ->
  let add := collection_add (collection g) [T] [md] [id] (srv w) in
  let r := ingest_to_vector_db g T md w in
  is_ret r.1 = is_ret add.1 /\
  srv r.2 = add.2 /\
  (is_ret add.1 = true ->
   stdout r.2 =
     stdout w ++ [lit "Ingested document with id: " ++ take 12 id ++ lit "..."]) /\
  (is_ret add.1 = false -> stdout r.2 = stdout w).
Proof.
  intros Hid. cbv zeta. rewrite (ingest_run g T md id w Hid). cbv zeta.
  destruct (collection_add _ _ _ _ _) as [[u|e] s']; cbn [fst snd srv stdout is_ret];
    repeat split; try done.
Qed.

Lemma ingest_confirms_only_success_witness :
  exists id,
    doc_id_of acme_text = Ret id /\
    let add := collection_add (collection g0) [acme_text] [acme_meta] [id] (srv env1) in
    let r := ingest_to_vector_db g0 acme_text acme_meta env1 in
    is_ret r.1 = is_ret add.1 /\
    srv r.2 = add.2 /\
    (is_ret add.1 = true ->
     stdout r.2 =
       stdout env1 ++
         [lit "Ingested document with id: " ++ take 12 id ++ lit "..."]) /\
    (is_ret add.1 = false -> stdout r.2 = stdout env1).
Proof.
  eexists. split; [vm_compute; reflexivity |].
  eapply (ingest_confirms_only_success g0 acme_text _ acme_meta env1).
  vm_compute; reflexivity.
Defined.

(** X8.  Whatever its arguments and whatever the remote side answers,
    [query_vector_db] sends one request and prints nothing.  The request asks
    for the one query text, with the result count as given (not checked, not
    clamped), for documents, metadatas and distances, and with a [where]
    clause only for a non-empty filter, then on the single field
    [customer_name].  An error of the remote side is raised unchanged. *)
Theorem query_one_request {S : Type} `{Api S}
  (g : Globals) (q : str) (f : option str) (n : Z) (w : Env S) :
  let incl := [IDocuments; IMetadatas; IDistances] in
  let r := query_vector_db g q f n w in
  stdout r.2 = stdout w /\
  (exists wh, trace r.2 = trace w ++ [CQuery (collection g) [q] n wh incl] /\
     match f with
     | Some (c :: s) => wh = Some {[ lit "customer_name" := Scalar (SStr (c :: s)) ]}
     | _ => wh = None
     end) /\
  (forall e s',
     collection_query (collection g) [q] n (build_where f) incl (srv w)
       = (Raise e, s') ->
     r.1 = Raise e /\ srv r.2 = s').
Proof.
  cbv zeta. rewrite query_run. cbv zeta. cbn [fst snd stdout trace srv].
  split; [reflexivity |]. split.
  - exists (build_where f). split; [reflexivity |].
    by destruct f as [[|c s]|].
  - intros e s' Hq. by rewrite Hq.
Qed.

(** X9.  When the answer has no documents ([None], no inner list, or an
    empty first inner list), [query_vector_db] returns the empty list,
    whatever the other two arrays are, even if they are missing. *)
Theorem query_no_documents_is_empty {S : Type} `{Api S}
  (g : Globals) (q : str) (f : option str) (n : Z) (w : Env S)
  (r : QueryResult) (s' : S) :
  collection_query (collection g) [q] n (build_where f)
    [IDocuments; IMetadatas; IDistances] (srv w) = (Ret r, s') ->
  documents r = None \/ documents r = Some [] \/
    (exists rest, documents r = Some ([] :: rest)) ->
  (query_vector_db g q f n w).1 = Ret [].
Proof.
  intros Hq Hdocs. rewrite query_run. cbv zeta. rewrite Hq. cbn [fst].
  unfold reshape. by destruct Hdocs as [-> | [-> | [rest ->]]].
Qed.

Lemma query_no_documents_is_empty_witness :
  (query_vector_db g0 (lit "renewal") None 5
     (mkEnv [Scenarios.no_documents] [] [])).1 = Ret [].
Proof.
  apply (query_no_documents_is_empty g0 (lit "renewal") None 5
           (mkEnv [Scenarios.no_documents] [] []) Scenarios.no_documents []).
  - reflexivity.
  - left. reflexivity.
Defined.

(** X10.  When the answer has a document but the [metadatas] array, or after
    it the [distances] array, is [None] or has no inner list,
    [query_vector_db] raises: a [TypeError] for [None], an [IndexError] for
    the empty list. *)
Theorem query_missing_arrays_raise {S : Type} `{Api S}
  (g : Globals) (q : str) (f : option str) (n : Z) (w : Env S)
  (r : QueryResult) (s' : S) (t : str) (d0 : list str) (ds : list (list str)) :
  collection_query (collection g) [q] n (build_where f)
    [IDocuments; IMetadatas; IDistances] (srv w) = (Ret r, s') ->
  documents r = Some ((t :: d0) :: ds) ->
  let raises (cls : exn_class) :=
    exists e, (query_vector_db g q f n w).1 = Raise e /\ exn_cls e = cls in
  (metadatas r = None -> raises TypeError) /\
  (metadatas r = Some [] -> raises IndexError) /\
  (forall m0 ms, metadatas r = Some (m0 :: ms) ->
     (distances r = None -> raises TypeError) /\
     (distances r = Some [] -> raises IndexError)).
Proof.
  intros Hq Hdocs. cbv zeta. rewrite query_run. cbv zeta. rewrite Hq.
  cbn [fst]. unfold reshape. rewrite Hdocs.
  split; [|split].
  - intros ->. simpl. eauto.
  - intros ->. simpl. eauto.
  - intros m0 ms ->. split; intros ->; simpl; eauto.
Qed.

Lemma query_missing_arrays_raise_witness :
  let raises (cls : exn_class) :=
    exists e,
      (query_vector_db g0 (lit "renewal") None 5
         (mkEnv [Scenarios.no_metadatas] [] [])).1 = Raise e /\
      exn_cls e = cls in
  (metadatas Scenarios.no_metadatas = None -> raises TypeError) /\
  (metadatas Scenarios.no_metadatas = Some [] -> raises IndexError) /\
  (forall m0 ms, metadatas Scenarios.no_metadatas = Some (m0 :: ms) ->
     (distances Scenarios.no_metadatas = None -> raises TypeError) /\
     (distances Scenarios.no_metadatas = Some [] -> raises IndexError)).
Proof.
  apply (query_missing_arrays_raise g0 (lit "renewal") None 5
           (mkEnv [Scenarios.no_metadatas] [] []) Scenarios.no_metadatas []
           (lit "a") [] []);
    reflexivity.
Defined.

(** X11.  The three ways [reset_collection] can go, whatever the remote side
    is.  When the delete raises, it raises that error at once: no
    get-or-create is sent and nothing is printed.  When the delete returned
    and the get-or-create raises, it raises that error after printing only
    that the collection was deleted.  When both return, it prints both
    lines and the module keeps its client and its embedding function, with
    the collection object the get-or-create returned. *)
Theorem reset_outcomes {S : Type} `{Api S} (g : Globals) (w : Env S) :
  let c := client g in
  let ef := embedding_func g in
  (forall e s1,
     delete_collection c COLLECTION_NAME (srv w) = (Raise e, s1) ->
     reset_collection g w =
       (Raise e, mkEnv s1 (stdout w) (trace w ++ [CDelete c COLLECTION_NAME]))) /\
  (forall u s1 e s2,
     delete_collection c COLLECTION_NAME (srv w) = (Ret u, s1) ->
     get_or_create_collection c COLLECTION_NAME ef s1 = (Raise e, s2) ->
     reset_collection g w =
       (Raise e,
        mkEnv s2
          (stdout w ++ [lit "Collection sales_features deleted."])
          (trace w ++ [CDelete c COLLECTION_NAME;
                       CGetOrCreate c COLLECTION_NAME ef]))) /\
  (forall u s1 col s2,
     delete_collection c COLLECTION_NAME (srv w) = (Ret u, s1) ->
     get_or_create_collection c COLLECTION_NAME ef s1 = (Ret col, s2) ->
     reset_collection g w =
       (Ret (mkGlobals c col ef),
        mkEnv s2
          (stdout w ++ [lit "Collection sales_features deleted.";
                        lit "New empty collection created."])
          (trace w ++ [CDelete c COLLECTION_NAME;
                       CGetOrCreate c COLLECTION_NAME ef]))).
Proof.
  cbv zeta. split; [|split].
  - intros e s1 Hd. rewrite reset_collection_run. cbv zeta. by rewrite Hd.
  - intros u s1 e s2 Hd Hg. rewrite reset_collection_run. cbv zeta.
    rewrite Hd, Hg. by rewrite <- (assoc_L (++)).
  - intros u s1 e s2 Hd Hg. rewrite reset_collection_run. cbv zeta.
    rewrite Hd, Hg. by rewrite <- !(assoc_L (++)).
Qed.

Lemma reset_outcomes_witness :
  reset_collection g0 env0 =
    (Raise (not_found COLLECTION_NAME),
     mkEnv srv0 (stdout env0)
       (trace env0 ++ [CDelete (client g0) COLLECTION_NAME])) /\
  reset_collection g0 Scenarios.env3_flaky =
    (Raise refused,
     mkEnv (mkServer [] dist0 ∅ 1)
       (stdout Scenarios.env3_flaky ++ [lit "Collection sales_features deleted."])
       (trace Scenarios.env3_flaky ++
          [CDelete (client g0) COLLECTION_NAME;
           CGetOrCreate (client g0) COLLECTION_NAME (embedding_func g0)])).
Proof.
  split.
  - apply (proj1 (reset_outcomes g0 env0)). vm_compute; reflexivity.
  - apply (proj1 (proj2 (reset_outcomes g0 Scenarios.env3_flaky)) tt
             (mkServer [Some refused] dist0 ∅ 1)).
    + vm_compute; reflexivity.
    + vm_compute; reflexivity.
Defined.

(** ** The server's invariant *)

Import Inv.

Lemma wf_tick s : wf s -> wf (tick s).
Proof. done. Qed.

Lemma wf_request {A} (op : Server -> outcome A * Server) s :
  (forall s0, wf s0 -> wf (op s0).2) -> wf s -> wf (request op s).2.
Proof.
  intros Hop Hwf. unfold request.
  destruct (next_fault s); [by apply wf_tick | by apply Hop, wf_tick].
Qed.

Lemma wf_heartbeat c s : wf s -> wf (mem_heartbeat c s).2.
Proof. apply wf_request. done. Qed.

Lemma wf_http_client host port ssl hs s :
  wf s -> wf (mem_http_client host port ssl hs s).2.
Proof. apply wf_request. done. Qed.

Lemma wf_openai_embedding key model s :
  wf s -> wf (mem_openai_embedding key model s).2.
Proof. unfold mem_openai_embedding. by destruct key. Qed.

Lemma wf_get_or_create c nm ef s : wf s -> wf (mem_get_or_create c nm ef s).2.
Proof.
  apply wf_request. intros s0 Hwf.
  destruct (colls s0 !! nm) as [k|] eqn:Hk; [done |].
  cbn [snd]. unfold wf. cbn [colls next_uuid].
  apply map_Forall_insert_2.
  - split; simpl; [lia | constructor].
  - intros nm' k' Hk'. destruct (Hwf nm' k' Hk') as [Hlt Hnd].
    split; [simpl; lia | done].
Qed.

Lemma wf_delete c nm s : wf s -> wf (mem_delete c nm s).2.
Proof.
  apply wf_request. intros s0 Hwf.
  destruct (colls s0 !! nm) as [k|]; [|done].
  cbn [snd]. unfold wf, with_colls. cbn [colls].
  intros nm' k' Hk'. apply lookup_delete_Some in Hk' as [_ Hk'].
  apply (Hwf nm' k' Hk').
Qed.

Lemma upserts_NoDup (new l : list Doc) :
  NoDup (map doc_id l) ->
  NoDup (map doc_id (fold_left (fun l d => upsert d l) new l)).
Proof.
  revert l. induction new as [|d new IH]; intros l Hnd; simpl; [done |].
  by apply IH, upsert_NoDup.
Qed.

Lemma wf_add c docs metas ids s : wf s -> wf (mem_add c docs metas ids s).2.
Proof.
  apply wf_request. intros s0 Hwf.
  destruct (resolve s0 c) as [k|] eqn:Hk; [|done].
  destruct (negb _); [done |]. destruct (negb _); [done |].
  cbn [snd]. unfold wf, with_colls. cbn [colls].
  assert (Hk0 : colls s0 !! col_name c = Some k).
  { unfold resolve in Hk. destruct (colls s0 !! col_name c) as [k'|]; [|done].
    destruct (decide _); congruence. }
  destruct (Hwf _ _ Hk0) as [Hlt Hnd].
  apply map_Forall_insert_2; [|done].
  split; [done |]. cbn [coll_docs]. by apply upserts_NoDup.
Qed.

Lemma wf_query c qs n wh incl s : wf s -> wf (mem_query c qs n wh incl s).2.
Proof.
  apply wf_request. intros s0 Hwf.
  destruct (resolve s0 c); [|done]. by destruct (n <=? 0).
Qed.

(** ** A collection object that no longer resolves *)

Lemma query_needs_collection (g : Globals) q f n (w : Env Server) :
  resolve (srv w) (collection g) = None ->
  is_ret (query_vector_db g q f n w).1 = false.
Proof.
  intros Hnone.
  destruct (query_vector_db g q f n w) as [[l|e] w'] eqn:Hq; [|done].
  apply query_mem_ret in Hq as (k & _ & Hk & _). congruence.
Qed.

Lemma ingest_needs_collection (g : Globals) T md (w : Env Server) :
  resolve (srv w) (collection g) = None ->
  is_ret (ingest_to_vector_db g T md w).1 = false.
Proof.
  intros Hnone.
  destruct (doc_id_of T) as [id|e] eqn:Hid.
  - destruct (ingest_to_vector_db g T md w) as [[[]|e] w'] eqn:Hi; [|done].
    apply (ingest_mem_ret g T md id w w' Hid) in Hi as [Ha _].
    apply mem_add_ret in Ha as (_ & _ & k & Hk & _). congruence.
  - by rewrite (ingest_run_unencodable g T md e w Hid).
Qed.

Lemma resolve_lookup s c k :
  resolve s c = Some k -> colls s !! col_name c = Some k.
Proof.
  unfold resolve. destruct (colls s !! col_name c) as [k'|]; [|done].
  destruct (decide _); congruence.
Qed.

(** X12.  The invariant of the reference server holds when it has no
    collection, and every function of the module keeps it, whether it
    returns or raises: collections keep identities the server gave out, and
    no collection ever stores an id twice. *)
Theorem operations_keep_invariant :
  (forall fs d n, wf (mkServer fs d ∅ n)) /\
  (forall (w : Env Server), wf (srv w) ->
     (forall cfg, wf (srv (module_init cfg w).2)) /\
     (forall g T md, wf (srv (ingest_to_vector_db g T md w).2)) /\
     (forall g q f n, wf (srv (query_vector_db g q f n w).2)) /\
     (forall g, wf (srv (reset_collection g w).2))).
Proof.
  split; [intros fs d n; apply map_Forall_empty |].
  intros w Hwf. split; [|split; [|split]].
  - intros cfg.
    rewrite module_init_run, get_vector_client_and_collection_run.
    pose proof (wf_http_client (CHROMA_HOST cfg) (CHROMA_PORT cfg)
                  (CHROMA_SSL cfg) (headers cfg) (srv w) Hwf) as Hc.
    change (HttpClient ?a ?b ?c ?d ?s) with (mem_http_client a b c d s).
    destruct (mem_http_client _ _ _ _ _) as [[c|e] s0]; cbn [snd] in Hc; [|done].
    pose proof (wf_heartbeat c s0 Hc) as Hh.
    change (heartbeat ?a ?b) with (mem_heartbeat a b).
    destruct (mem_heartbeat _ _) as [[z|e] s1]; cbn [snd] in Hh; [|done].
    pose proof (wf_openai_embedding (OPENAI_API_KEY cfg)
                  (lit "text-embedding-3-small") s1 Hh) as He.
    change (OpenAIEmbeddingFunction ?a ?b ?s) with (mem_openai_embedding a b s).
    destruct (mem_openai_embedding _ _ _) as [[ef|e] s2]; cbn [snd] in He;
      [|done].
    pose proof (wf_get_or_create c COLLECTION_NAME ef s2 He) as Hg.
    change (get_or_create_collection ?a ?b ?c ?d)
      with (mem_get_or_create a b c d).
    by destruct (mem_get_or_create _ _ _ _) as [[col|e] s3].
  - intros g T md.
    destruct (doc_id_of T) as [id|e] eqn:Hid.
    + rewrite (ingest_run g T md id w Hid). cbv zeta. cbn [snd srv].
      apply (wf_add _ _ _ _ _ Hwf).
    + by rewrite (ingest_run_unencodable g T md e w Hid).
  - intros g q f n. rewrite query_run. cbv zeta. cbn [snd srv].
    apply (wf_query _ _ _ _ _ _ Hwf).
  - intros g. rewrite reset_collection_run. cbv zeta.
    pose proof (wf_delete (client g) COLLECTION_NAME (srv w) Hwf) as Hd.
    change (delete_collection ?a ?b ?c) with (mem_delete a b c).
    destruct (mem_delete _ _ _) as [[u|e] s1]; cbn [snd] in Hd; [|done].
    pose proof (wf_get_or_create (client g) COLLECTION_NAME
                  (embedding_func g) s1 Hd) as Hg.
    change (get_or_create_collection ?a ?b ?c ?d)
      with (mem_get_or_create a b c d).
    by destruct (mem_get_or_create _ _ _ _) as [[col|e] s2].
Qed.


Lemma operations_keep_invariant_witness :
  wf (srv env0) /\
  wf (srv (module_init cfg0 env0).2) /\
  wf (srv (ingest_to_vector_db g0 acme_text acme_meta env1).2) /\
  wf (srv (reset_collection g0 env2).2).
Proof.
  pose proof (proj1 operations_keep_invariant [] dist0 0%N) as H0.
  change (wf (srv env0)) in H0.
  destruct (proj2 operations_keep_invariant env0 H0) as (Hi0 & _).
  pose proof (Hi0 cfg0) as H1. change (wf (srv env1)) in H1.
  destruct (proj2 operations_keep_invariant env1 H1) as (_ & Hg1 & _).
  pose proof (Hg1 g0 acme_text acme_meta) as H2. change (wf (srv env2)) in H2.
  destruct (proj2 operations_keep_invariant env2 H2) as (_ & _ & _ & Hr2).
  exact (conj H0 (conj (Hi0 cfg0) (conj (Hg1 g0 acme_text acme_meta) (Hr2 g0)))).
Defined.

(** ** More on the requests of the reference server *)

Lemma mem_heartbeat_ret c s z s' :
  mem_heartbeat c s = (Ret z, s') -> served s /\ s' = tick s.
Proof.
  unfold mem_heartbeat. intros Hh. apply request_ret in Hh as [Hs Hh].
  by injection Hh as _ <-.
Qed.

Lemma mem_delete_served c nm s k :
  served s -> colls s !! nm = Some k ->
  mem_delete c nm s = (Ret tt, with_colls (tick s) (delete nm (colls s))).
Proof.
  intros Hs Hk. unfold mem_delete. rewrite request_served by done.
  change (colls (tick s)) with (colls s). by rewrite Hk.
Qed.

Lemma mem_get_or_create_raise c nm ef s e s' :
  mem_get_or_create c nm ef s = (Raise e, s') -> s' = tick s.
Proof.
  unfold mem_get_or_create, request.
  destruct (next_fault s); [by intros [= _ <-] |].
  by destruct (colls (tick s) !! nm).
Qed.

Lemma mem_add_raise c docs metas ids s e s' :
  mem_add c docs metas ids s = (Raise e, s') -> colls s' = colls s.
Proof.
  unfold mem_add, request.
  destruct (next_fault s); [by intros [= _ <-] |].
  destruct (resolve (tick s) c); [|by intros [= _ <-]].
  destruct (negb _); [by intros [= _ <-] |].
  destruct (negb _); [by intros [= _ <-] | discriminate].
Qed.

(** The documents after an upsert. *)
Lemma upsert_elem_new (d : Doc) (l : list Doc) : d ∈ upsert d l.
Proof.
  induction l as [|x l IH]; simpl; [left |].
  destruct (decide _); [left | by right].
Qed.

Lemma upsert_elem_old (d x : Doc) (l : list Doc) :
  x ∈ l -> doc_id x <> doc_id d -> x ∈ upsert d l.
Proof.
  intros Hin Hne. induction l as [|y l IH]; [by apply elem_of_nil in Hin |].
  simpl. apply elem_of_cons in Hin as [-> | Hin].
  - rewrite decide_False by done. left.
  - destruct (decide _); right; [done | by apply IH].
Qed.

Lemma upsert_elem_inv (d x : Doc) (l : list Doc) :
  x ∈ upsert d l -> x = d \/ x ∈ l.
Proof.
  induction l as [|y l IH]; simpl.
  - intros ->%list_elem_of_singleton. by left.
  - destruct (decide _).
    + intros [-> | Hin]%elem_of_cons; [by left | right; by right].
    + intros [-> | Hin]%elem_of_cons; [right; left |].
      destruct (IH Hin); [by left | right; by right].
Qed.

Lemma upsert_length (d : Doc) (l : list Doc) :
  (length l <= length (upsert d l) <= length l + 1)%nat.
Proof.
  induction l as [|y l IH]; simpl; [lia |].
  destruct (decide _); simpl; lia.
Qed.

(** When at least as many results are asked for as documents are stored,
    every document that passes the filter is among the candidates. *)
Lemma hits_all dist docs wh n q d :
  Z.of_nat (length docs) <= n -> d ∈ docs -> where_holds wh d ->
  (d, dist q (doc_text d)) ∈ hits dist docs wh n q.
Proof.
  intros Hn Hd Hw. unfold hits. rewrite take_ge.
  - rewrite merge_sort_Permutation.
    change (map ?f ?l) with (f <$> l).
    apply (list_elem_of_fmap_2 (fun d => (d, dist q (doc_text d)))).
    by apply list_elem_of_filter.
  - rewrite (Permutation_length (merge_sort_Permutation _ _)), length_map.
    pose proof (length_filter (where_holds wh) docs). lia.
Qed.

Lemma stored_resolve s c :
  stored s c <> [] -> exists k, resolve s c = Some k /\ coll_docs k = stored s c.
Proof.
  unfold stored. destruct (resolve s c) as [k|]; [eauto | done].
Qed.

(** ** Ingest, query and reset together *)

(** X13.  Against the reference server, a text whose id was not stored
    before is found again once it is ingested: after [ingest_to_vector_db]
    returned, a served query that asks for at least as many results as
    documents are stored, with no filter (or the empty one) or with the
    [customer_name] of the metadata as filter, returns a list that holds
    that text with the metadata as given and its distance to the query.
    (For an id that was stored already, what is found depends on how the
    remote side resolves the duplicate, and nothing is said.) *)
Theorem ingest_then_query_finds (g : Globals) (T id : str) (md : Metadata)
  (w w1 : Env Server) (q : str) (f : option str) (n : Z) :
  doc_id_of T = Ret id ->
  id ∉ map doc_id (stored (srv w) (collection g)) ->
  ingest_to_vector_db g T md w = (Ret tt, w1) ->
  served (srv w1) ->
  Z.of_nat (length (stored (srv w1) (collection g))) <= n ->
  (f = None \/ f = Some [] \/
   exists s, f = Some s /\ md !! lit "customer_name" = Some (Scalar (SStr s))) ->
  exists l w2,
    query_vector_db g q f n w1 = (Ret l, w2) /\
    mkRetrieved T md (dist (srv w1) q T) ∈ l.
Proof.
  intros Hid Hfresh Hi Hs Hn Hf.
  apply (ingest_mem_ret g T md id w w1 Hid) in Hi as [Ha _].
  apply mem_add_ret in Ha as (_ & _ & k & _ & Hst).
  pose proof (upsert_elem_new (mkDoc id T (Some md)) (coll_docs k)) as Hin.
  rewrite <- Hst in Hin.
  destruct (stored_resolve (srv w1) (collection g)) as (k1 & Hk1 & Hdocs).
  { intros Hnil. rewrite Hnil in Hin. by apply elem_of_nil in Hin. }
  assert (0 < n).
  { destruct (stored (srv w1) (collection g)); [by apply elem_of_nil in Hin |].
    simpl in Hn. lia. }
  rewrite (query_mem_served g q f n w1 k1 Hs Hk1) by done.
  eexists _, _. split; [reflexivity |].
  change (map ?f ?l) with (f <$> l).
  apply (list_elem_of_fmap_2' record_of _ (mkDoc id T (Some md), dist (srv w1) q T)).
  - rewrite Hdocs. apply (hits_all _ _ _ _ _ (mkDoc id T (Some md))); try done.
    destruct Hf as [-> | [-> | (s & -> & Hmd)]]; try done.
    destruct s as [|c s]; [done |]. simpl.
    by apply (map_Forall_singleton
                (fun k v => md !! k = Some v)).
  - unfold record_of. cbn [fst snd doc_text doc_meta meta_or_empty].
    by destruct (decide (md = ∅)) as [-> |].
Qed.

Lemma ingest_then_query_finds_witness :
  exists l w2,
    query_vector_db g0 (lit "renewal value") (Some (lit "Acme")) 5 env2
      = (Ret l, w2) /\
    mkRetrieved acme_text acme_meta (dist (srv env2) (lit "renewal value") acme_text)
      ∈ l.
Proof.
  apply (ingest_then_query_finds g0 acme_text
           (lit "ee8f0aaec58a87c46e638208f2e81229930cd2514d5cb38f846bf73469a952e3")
           acme_meta env1 env2 (lit "renewal value") (Some (lit "Acme")) 5).
  - vm_compute; reflexivity.
  - compute_done.
  - vm_compute; reflexivity.
  - vm_compute; reflexivity.
  - vm_compute. discriminate.
  - right. right. exists (lit "Acme"). split; [reflexivity |].
    vm_compute; reflexivity.
Defined.

(** X14.  Against the reference server, an ingest that returns leaves the
    collection with a document of that id and touches no document with
    another id: what was stored under other ids is still stored, nothing
    appears under another id, and the collection grows by one document at
    most.  If the id was not stored before, the document stored is the text
    with the metadata as given.  An ingest that raises changes no
    collection. *)
Theorem ingest_keeps_other_documents :
  (forall (g : Globals) (T id : str) (md : Metadata) (w w1 : Env Server),
     doc_id_of T = Ret id ->
     ingest_to_vector_db g T md w = (Ret tt, w1) ->
     let before := stored (srv w) (collection g) in
     let after := stored (srv w1) (collection g) in
     id ∈ map doc_id after /\
     (id ∉ map doc_id before -> mkDoc id T (Some md) ∈ after) /\
     (forall d, d ∈ before -> doc_id d <> id -> d ∈ after) /\
     (forall d, d ∈ after -> doc_id d = id \/ d ∈ before) /\
     (length before <= length after <= length before + 1)%nat) /\
  (forall (g : Globals) (T : str) (md : Metadata) (w w1 : Env Server) (e : exn),
     ingest_to_vector_db g T md w = (Raise e, w1) ->
     colls (srv w1) = colls (srv w)).
Proof.
  split.
  - intros g T id md w w1 Hid Hi before after. subst before after.
    apply (ingest_mem_ret g T md id w w1 Hid) in Hi as [Ha _].
    apply mem_add_ret in Ha as (_ & _ & k & Hk & ->).
    unfold stored. rewrite Hk.
    split; [apply (upsert_id_stored (mkDoc id T (Some md))) |].
    split; [intros _; apply upsert_elem_new |]. split; [|split].
    + intros d Hd Hne. by apply upsert_elem_old.
    + intros d Hd. apply upsert_elem_inv in Hd as [-> | Hd]; [by left | by right].
    + apply upsert_length.
  - intros g T md w w1 e Hi.
    destruct (doc_id_of T) as [id|e'] eqn:Hid.
    + rewrite (ingest_run g T md id w Hid) in Hi. cbv zeta in Hi.
      change (collection_add ?a ?b ?c ?d ?s) with (mem_add a b c d s) in Hi.
      destruct (mem_add _ _ _ _ _) as [[u|e0] s'] eqn:Ha; [discriminate |].
      injection Hi as _ <-. cbn [srv]. by apply mem_add_raise in Ha.
    + rewrite (ingest_run_unencodable g T md e' w Hid) in Hi.
      by injection Hi as _ <-.
Qed.

Lemma ingest_keeps_other_documents_witness :
  exists id,
    doc_id_of globex_text = Ret id /\
    length (stored (srv env2) (collection g0)) = 1%nat /\
    (id ∈ map doc_id (stored (srv env3) (collection g0)) /\
     (id ∉ map doc_id (stored (srv env2) (collection g0)) ->
      mkDoc id globex_text (Some globex_meta) ∈ stored (srv env3) (collection g0)) /\
     (forall d, d ∈ stored (srv env2) (collection g0) -> doc_id d <> id ->
        d ∈ stored (srv env3) (collection g0)) /\
     (forall d, d ∈ stored (srv env3) (collection g0) ->
        doc_id d = id \/ d ∈ stored (srv env2) (collection g0)) /\
     (length (stored (srv env2) (collection g0)) <=
        length (stored (srv env3) (collection g0)) <=
        length (stored (srv env2) (collection g0)) + 1)%nat) /\
    colls (srv (ingest_to_vector_db g0 acme_text Fixture.tagged_meta env3).2)
      = colls (srv env3).
Proof.
  eexists. split; [vm_compute; reflexivity |].
  split; [vm_compute; reflexivity |]. split.
  - eapply (proj1 ingest_keeps_other_documents g0 globex_text _ globex_meta
              env2 env3).
    + vm_compute; reflexivity.
    + vm_compute; reflexivity.
  - eapply (proj2 ingest_keeps_other_documents g0 acme_text Fixture.tagged_meta
              env3 _ _).
    vm_compute; reflexivity.
Defined.

(** X15.  Against the reference server, a successful initialisation yields
    a collection object named [sales_features] that resolves: to the
    collection of that name if the server has one, whose documents are left
    as they are, and to a new empty collection otherwise.  No other
    collection is touched. *)
Theorem import_resolves_collection (cfg : Config) (w w' : Env Server)
  (g : Globals) :
  module_init cfg w = (Ret g, w') ->
  col_name (collection g) = COLLECTION_NAME /\
  col_ef (collection g) = embedding_func g /\
  match colls (srv w) !! COLLECTION_NAME with
  | Some k =>
      resolve (srv w') (collection g) = Some k /\
      colls (srv w') = colls (srv w)
  | None =>
      resolve (srv w') (collection g) = Some (mkColl (next_uuid (srv w)) []) /\
      colls (srv w') =
        <[COLLECTION_NAME := mkColl (next_uuid (srv w)) []]> (colls (srv w))
  end.
Proof.
  rewrite module_init_run, get_vector_client_and_collection_run.
  change (HttpClient ?a ?b ?c ?d ?s) with (mem_http_client a b c d s).
  destruct (mem_http_client _ _ _ _ _) as [[c|e] s0] eqn:Hc; [|discriminate].
  apply request_ret in Hc as [_ Hc]. injection Hc as <- <-.
  change (heartbeat ?a ?b) with (mem_heartbeat a b).
  destruct (mem_heartbeat _ _) as [[z|e] s1] eqn:Hh; [|discriminate].
  apply mem_heartbeat_ret in Hh as [_ ->].
  change (OpenAIEmbeddingFunction ?a ?b ?s) with (mem_openai_embedding a b s).
  unfold mem_openai_embedding.
  destruct (OPENAI_API_KEY cfg) as [key|]; [|discriminate].
  change (get_or_create_collection ?a ?b ?c ?d) with (mem_get_or_create a b c d).
  generalize COLLECTION_NAME as nm. intros nm.
  destruct (mem_get_or_create _ _ _ _) as [[col|e] s2] eqn:Hg; [|discriminate].
  intros [= <- <-]. cbn [collection embedding_func srv].
  apply mem_get_or_create_ret in Hg as [_ Hg].
  change (colls (tick (tick (srv w)))) with (colls (srv w)) in Hg.
  change (next_uuid (tick (tick (srv w)))) with (next_uuid (srv w)) in Hg.
  destruct (colls (srv w) !! nm) as [k|] eqn:Hk; destruct Hg as [-> ->].
  - repeat split. unfold resolve. cbn [colls tick with_faults col_name col_id].
    rewrite Hk. by rewrite decide_True.
  - repeat split. unfold resolve. cbn [colls col_name col_id].
    rewrite lookup_insert_eq. cbn [coll_uuid]. by rewrite decide_True.
Qed.

Lemma import_resolves_collection_witness :
  exists g w',
    module_init cfg0 (mkEnv (srv env3) [] []) = (Ret g, w') /\
    length (stored (srv w') (collection g)) = 2%nat /\
    col_name (collection g) = COLLECTION_NAME /\
    col_ef (collection g) = embedding_func g /\
    match colls (srv env3) !! COLLECTION_NAME with
    | Some k =>
        resolve (srv w') (collection g) = Some k /\
        colls (srv w') = colls (srv env3)
    | None =>
        resolve (srv w') (collection g)
          = Some (mkColl (next_uuid (srv env3)) []) /\
        colls (srv w') =
          <[COLLECTION_NAME := mkColl (next_uuid (srv env3)) []]>
            (colls (srv env3))
    end.
Proof.
  eexists _, _. split; [vm_compute; reflexivity |].
  split; [vm_compute; reflexivity |].
  eapply (import_resolves_collection cfg0 (mkEnv (srv env3) [] [])).
  vm_compute; reflexivity.
Defined.

(** X17.  Against the reference server, a reset whose delete was carried
    out and whose get-or-create then failed leaves the module unusable: the
    collection is gone on the server, the module still holds the old
    collection object, and every query and every ingest raises. *)
Theorem reset_half_done_unusable (g : Globals) (w w' : Env Server) (e : exn) :
  col_name (collection g) = COLLECTION_NAME ->
  served (srv w) ->
  is_Some (colls (srv w) !! COLLECTION_NAME) ->
  reset_collection g w = (Raise e, w') ->
  colls (srv w') = delete COLLECTION_NAME (colls (srv w)) /\
  trace w' =
    trace w ++ [CDelete (client g) COLLECTION_NAME;
                CGetOrCreate (client g) COLLECTION_NAME (embedding_func g)] /\
  (forall q f n, is_ret (query_vector_db g q f n w').1 = false) /\
  (forall T md, is_ret (ingest_to_vector_db g T md w').1 = false).
Proof.
  intros Hname Hs [k Hk] Hr.
  rewrite reset_collection_run in Hr. cbv zeta in Hr.
  change (delete_collection ?a ?b ?c) with (mem_delete a b c) in Hr.
  rewrite (mem_delete_served _ _ _ k Hs Hk) in Hr.
  change (get_or_create_collection ?a ?b ?c ?d)
    with (mem_get_or_create a b c d) in Hr.
  destruct (mem_get_or_create _ _ _ _) as [[col|e'] s2] eqn:Hg; [discriminate |].
  apply mem_get_or_create_raise in Hg as ->.
  injection Hr as _ <-. cbn [srv trace colls tick with_faults with_colls].
  assert (Hnone : forall fs d n,
            resolve (mkServer fs d (delete COLLECTION_NAME (colls (srv w))) n)
              (collection g) = None).
  { intros fs d n. unfold resolve. cbn [colls].
    by rewrite Hname, lookup_delete_eq. }
  split; [done |]. split; [by rewrite <- (assoc_L (++)) |]. split.
  - intros q f n. apply query_needs_collection. apply Hnone.
  - intros T md. apply ingest_needs_collection. apply Hnone.
Qed.

Lemma reset_half_done_unusable_witness :
  exists w',
    reset_collection g0 Scenarios.env3_flaky = (Raise refused, w') /\
    colls (srv w') = delete COLLECTION_NAME (colls (srv Scenarios.env3_flaky)) /\
    trace w' =
      trace Scenarios.env3_flaky ++
        [CDelete (client g0) COLLECTION_NAME;
         CGetOrCreate (client g0) COLLECTION_NAME (embedding_func g0)] /\
    (forall q f n, is_ret (query_vector_db g0 q f n w').1 = false) /\
    (forall T md, is_ret (ingest_to_vector_db g0 T md w').1 = false).
Proof.
  eexists. split; [vm_compute; reflexivity |].
  eapply (reset_half_done_unusable g0 Scenarios.env3_flaky _ refused).
  - reflexivity.
  - vm_compute; reflexivity.
  - compute_done.
  - vm_compute; reflexivity.
Defined.

(** X18.  Against the reference server, the first document of an empty
    collection is the whole answer: after an ingest into an empty collection
    returned, a served query for at least one result, with no filter (or the
    empty one) or with the [customer_name] of the metadata as filter, returns
    exactly one record, made of that text, the metadata as given and the
    distance of the text to the query. *)
Theorem first_ingest_single_result (g : Globals) (T : str) (md : Metadata)
  (w w1 : Env Server) (q : str) (f : option str) (n : Z) :
  stored (srv w) (collection g) = [] ->
  ingest_to_vector_db g T md w = (Ret tt, w1) ->
  served (srv w1) -> 0 < n ->
  (f = None \/ f = Some [] \/
   exists s, f = Some s /\ md !! lit "customer_name" = Some (Scalar (SStr s))) ->
  exists w2,
    query_vector_db g q f n w1 =
      (Ret [mkRetrieved T md (dist (srv w1) q T)], w2).
Proof.
  intros Hempty Hi Hs Hn Hf.
  destruct (doc_id_of T) as [id|e] eqn:Hid;
    [|by rewrite (ingest_run_unencodable g T md e w Hid) in Hi].
  apply (ingest_mem_ret g T md id w w1 Hid) in Hi as [Ha _].
  apply mem_add_ret in Ha as (_ & _ & k & Hk & Hst).
  assert (Hdocs : coll_docs k = []) by (unfold stored in Hempty; by rewrite Hk in Hempty).
  rewrite Hdocs in Hst. cbn [upsert] in Hst.
  destruct (stored_resolve (srv w1) (collection g)) as (k1 & Hk1 & Hd1);
    [by rewrite Hst |].
  rewrite (query_mem_served g q f n w1 k1 Hs Hk1 Hn).
  eexists. apply pair_equal_spec. split; [|reflexivity]. f_equal.
  rewrite Hd1, Hst. unfold hits.
  assert (Hw : where_holds (build_where f) (mkDoc id T (Some md))).
  { destruct Hf as [-> | [-> | (s & -> & Hmd)]]; try done.
    destruct s as [|c s]; [done |]. simpl.
    by apply (map_Forall_singleton (fun k v => md !! k = Some v)). }
  rewrite filter_cons_True by done. rewrite filter_nil. cbn [map doc_text].
  destruct (Z.to_nat n) as [|m] eqn:Hm; [lia |].
  assert (Hsort : merge_sort nearer [(mkDoc id T (Some md), dist (srv w1) q T)]
                  = [(mkDoc id T (Some md), dist (srv w1) q T)])
    by (apply Permutation_singleton_r, merge_sort_Permutation).
  rewrite Hsort. cbn [take map]. rewrite take_nil. cbn [map]. f_equal.
  unfold record_of. cbn [fst snd doc_text doc_meta meta_or_empty].
  by destruct (decide (md = ∅)) as [-> |].
Qed.

Lemma first_ingest_single_result_witness :
  exists w2,
    query_vector_db g0 (lit "renewal value") (Some (lit "Acme")) 5 env2 =
      (Ret [mkRetrieved acme_text acme_meta
              (dist (srv env2) (lit "renewal value") acme_text)], w2).
Proof.
  apply (first_ingest_single_result g0 acme_text acme_meta env1 env2
           (lit "renewal value") (Some (lit "Acme")) 5).
  - vm_compute; reflexivity.
  - vm_compute; reflexivity.
  - vm_compute; reflexivity.
  - lia.
  - right. right. exists (lit "Acme"). split; [reflexivity |].
    vm_compute; reflexivity.
Defined.
